(** * Anomaly Detection Ensemble Engine: a shallow embedding

    Source: [src/anomaly_detection.py] and its near-duplicate
    [src/uidai_analytics/analytics/services/anomaly.py].

    Modelling conventions.
    - A pandas [Series] with a [DatetimeIndex] is a list of (label, value)
      pairs in positional order.  Labels are day ordinals ([Z]); nothing
      forces them to be distinct, exactly as in pandas.
    - Input values are finite numbers, modelled as rationals [Q].  Every
      quantity the code derives from them is a [fl]: a rational or one of the
      IEEE-754 special values +inf, -inf, NaN.  Arithmetic is exact (no
      rounding); what is kept of float64 is the behaviour of the special
      values: division by zero does not raise, it yields an infinity or NaN,
      and every ordered comparison with NaN is false.  Zero is unsigned.
    - [np.sqrt] is a parameter [fsqrt] of the development.
    - Python exceptions are the [Raise] branch of [result]. *)

From Stdlib Require Import String DecimalString ZArith QArith Qabs Qround Lqa Lia
  Bool List FinFun Sorted Permutation.
Import ListNotations.
Local Open Scope Q_scope.

(* ------------------------------------------------------------------ *)
(** ** Exceptions *)

Inductive exc : Type :=
| ValueError (msg : string)
| KeyError (msg : string)
| TypeError (msg : string)
| DatabaseError (msg : string).

Definition exc_msg (e : exc) : string :=
  match e with
  | ValueError m | KeyError m | TypeError m | DatabaseError m => m
  end.

Inductive result (A : Type) : Type :=
| Ok (a : A)
| Raise (e : exc).
Arguments Ok {A} a.
Arguments Raise {A} e.

Definition bind {A B} (r : result A) (k : A -> result B) : result B :=
  match r with Ok a => k a | Raise e => Raise e end.

Notation "x <- c ;; k" := (bind c (fun x => k))
  (at level 61, c at next level, right associativity).

(* ------------------------------------------------------------------ *)
(** ** Numbers *)

Module Float.

Inductive fl : Type :=
| Fin (q : Q)
| PInf
| NInf
| NaN.

Definition Qltb (x y : Q) : bool := negb (Qle_bool y x).
Definition Qzero (x : Q) : bool := Qeq_bool x 0.

Definition of_nat (n : nat) : Q := Z.of_nat n # 1.

(** [x < y] on floats: false as soon as a NaN is involved. *)
Definition ltb (x y : fl) : bool :=
  match x, y with
  | NaN, _ | _, NaN => false
  | Fin a, Fin b => Qltb a b
  | NInf, NInf => false
  | NInf, _ => true
  | Fin _, PInf => true
  | _, _ => false
  end.

(** [x > y]. *)
Definition gtb (x y : fl) : bool := ltb y x.

Definition abs (x : fl) : fl :=
  match x with
  | Fin a => Fin (Qred (Qabs a))
  | PInf | NInf => PInf
  | NaN => NaN
  end.

Definition sub (x y : fl) : fl :=
  match x, y with
  | NaN, _ | _, NaN => NaN
  | Fin a, Fin b => Fin (Qred (a - b))
  | Fin _, PInf => NInf
  | Fin _, NInf => PInf
  | PInf, PInf => NaN
  | NInf, NInf => NaN
  | PInf, _ => PInf
  | NInf, _ => NInf
  end.

(** IEEE division: a zero divisor gives an infinity, or NaN for 0/0. *)
Definition div (x y : fl) : fl :=
  match x, y with
  | NaN, _ | _, NaN => NaN
  | Fin a, Fin b =>
      if Qzero b then
        if Qzero a then NaN else if Qltb 0 a then PInf else NInf
      else Fin (Qred (a / b))
  | Fin _, _ => Fin 0
  | PInf, Fin b => if Qltb b 0 then NInf else PInf
  | NInf, Fin b => if Qltb b 0 then PInf else NInf
  | _, _ => NaN
  end.

(** Python's [min(10.0, z)]: the first argument is kept unless the second
    compares strictly less. *)
Definition py_min (x y : fl) : fl := if ltb y x then y else x.

(** Round half to even to the nearest integer. *)
Definition round_half_even (q : Q) : Z :=
  let n := Qnum q in
  let d := Z.pos (Qden q) in
  let f := (n / d)%Z in
  let r := (n mod d)%Z in
  match (2 * r ?= d)%Z with
  | Lt => f
  | Gt => (f + 1)%Z
  | Eq => if Z.even f then f else (f + 1)%Z
  end.

(** Python's [round(x, ndigits)] on a float. *)
Definition py_round (x : fl) (ndigits : nat) : fl :=
  match x with
  | Fin q =>
      let scale := (10 ^ Z.of_nat ndigits)%Z in
      Fin (Qred (round_half_even (q * (scale # 1)) # Z.to_pos scale))
  | _ => x
  end.

Fixpoint Qsum (l : list Q) : Q :=
  match l with
  | [] => 0
  | x :: l' => x + Qsum l'
  end.

(** [Series.mean()] / [ndarray.mean()]: NaN on an empty input. *)
Definition mean (l : list Q) : fl :=
  match l with
  | [] => NaN
  | _ => Fin (Qred (Qsum l / of_nat (length l)))
  end.

End Float.
Import Float.

(* ------------------------------------------------------------------ *)
(** ** Python dictionaries

    A [dict] keeps its keys in insertion order; assigning to a key that is
    already present keeps its position. *)

Section Dict.
Variables (K V : Type) (eqb : K -> K -> bool).

Definition dict : Type := list (K * V).

Fixpoint dict_get (k : K) (d : dict) : option V :=
  match d with
  | [] => None
  | (k', v) :: d' => if eqb k k' then Some v else dict_get k d'
  end.

(** [k in d] *)
Definition dict_mem (k : K) (d : dict) : bool :=
  match dict_get k d with Some _ => true | None => false end.

(** [d[k] = v] *)
Fixpoint dict_set (k : K) (v : V) (d : dict) : dict :=
  match d with
  | [] => [(k, v)]
  | (k', v') :: d' =>
      if eqb k k' then (k', v) :: d' else (k', v') :: dict_set k v d'
  end.

(** In-place mutation of the object stored under [k]. *)
Fixpoint dict_modify (k : K) (f : V -> V) (d : dict) : dict :=
  match d with
  | [] => []
  | (k', v') :: d' =>
      if eqb k k' then (k', f v') :: d' else (k', v') :: dict_modify k f d'
  end.

End Dict.
Arguments dict_get {K V} eqb k d.
Arguments dict_mem {K V} eqb k d.
Arguments dict_set {K V} eqb k v d.
Arguments dict_modify {K V} eqb k f d.

(* ------------------------------------------------------------------ *)
(** ** Series and findings *)

(** A series: (date label, value) in positional order. *)
Definition series : Type := list (Z * Q).

Definition index {A} (s : list (Z * A)) : list Z := map fst s.
Definition values {A} (s : list (Z * A)) : list A := map snd s.

Inductive method : Type := z_score | iqr | rolling_deviation.

Definition method_eqb (a b : method) : bool :=
  match a, b with
  | z_score, z_score | iqr, iqr | rolling_deviation, rolling_deviation => true
  | _, _ => false
  end.

(** The dictionaries the three detectors append to their result lists. *)
Inductive entry : Type :=
| ZEntry (date : Z) (value : Q) (z : fl)
| IqrEntry (date : Z) (value : Q) (lower_bound upper_bound : Q)
| RollEntry (date : Z) (value : Q) (rolling_mean deviation_pct : fl).

Definition entry_date (e : entry) : Z :=
  match e with
  | ZEntry d _ _ | IqrEntry d _ _ _ | RollEntry d _ _ _ => d
  end.

Definition entry_value (e : entry) : Q :=
  match e with
  | ZEntry _ v _ | IqrEntry _ v _ _ | RollEntry _ v _ _ => v
  end.

Definition entry_method (e : entry) : method :=
  match e with
  | ZEntry _ _ _ => z_score
  | IqrEntry _ _ _ _ => iqr
  | RollEntry _ _ _ _ => rolling_deviation
  end.

(** [e['z_score']] *)
Definition entry_z_score (e : entry) : result fl :=
  match e with
  | ZEntry _ _ z => Ok z
  | _ => Raise (KeyError "z_score")
  end.

(** [e['rolling_mean']] *)
Definition entry_rolling_mean (e : entry) : result fl :=
  match e with
  | RollEntry _ _ rm _ => Ok rm
  | _ => Raise (KeyError "rolling_mean")
  end.

(* ------------------------------------------------------------------ *)
(** ** Z-score detector *)

Section Detectors.
Variable fsqrt : Q -> Q.

(** [np.sqrt] on a float. *)
Definition fl_sqrt (x : fl) : fl :=
  match x with
  | Fin q => if Qltb q 0 then NaN else Fin (fsqrt q)
  | PInf => PInf
  | _ => NaN
  end.

(** [a.std(ddof=0)]: the population standard deviation. *)
Definition np_std (a : list Q) : fl :=
  match mean a with
  | Fin mn => fl_sqrt (mean (map (fun x => Qred ((x - mn) * (x - mn))) a))
  | _ => NaN
  end.

(** [scipy.stats.zscore(a)]: [(a - a.mean()) / a.std(ddof=0)]. *)
Definition zscore (a : list Q) : list fl :=
  let mn := mean a in
  let std := np_std a in
  map (fun x => div (sub (Fin x) mn) std) a.

Definition z_score_anomalies (data_series : series) (threshold : Q)
  : list entry :=
  if (length data_series <? 3)%nat then []
  else
    let z_scores := map abs (zscore (values data_series)) in
    flat_map
      (fun '((date, value), z) =>
         if gtb z (Fin threshold) then [ZEntry date value z] else [])
      (combine data_series z_scores).

End Detectors.

(* ------------------------------------------------------------------ *)
(** ** IQR detector *)

Fixpoint insert_sorted (x : Q) (l : list Q) : list Q :=
  match l with
  | [] => [x]
  | y :: l' => if Qle_bool x y then x :: l else y :: insert_sorted x l'
  end.

Definition sort_values (l : list Q) : list Q :=
  fold_right insert_sorted [] l.

(** [Series.quantile(q)] with linear interpolation between the two nearest
    order statistics. *)
Definition quantile (vals : list Q) (q : Q) : Q :=
  let sorted := sort_values vals in
  let h := of_nat (length vals - 1) * q in
  let j := Qfloor h in
  let g := h - (j # 1) in
  let a := nth (Z.to_nat j) sorted 0 in
  let b := nth (S (Z.to_nat j)) sorted a in
  Qred (a + g * (b - a)).

Definition iqr_outliers (data_series : series) : list entry :=
  if (length data_series <? 5)%nat then []
  else
    let Q1 := quantile (values data_series) (1 # 4) in
    let Q3 := quantile (values data_series) (3 # 4) in
    let IQR := Q3 - Q1 in
    let lower_bound := Qred (Q1 - (3 # 2) * IQR) in
    let upper_bound := Qred (Q3 + (3 # 2) * IQR) in
    flat_map
      (fun '(date, value) =>
         if Qltb value lower_bound || Qltb upper_bound value
         then [IqrEntry date value lower_bound upper_bound]
         else [])
      data_series.

(* ------------------------------------------------------------------ *)
(** ** Rolling-deviation detector *)

(** [Series.rolling(window).mean()]: at position [i] the mean of the [window]
    values that end at [i], position [i] included; NaN while fewer than
    [window] values are available. *)
Definition window_mean (vals : list Q) (window i : nat) : fl :=
  if (i + 1 <? window)%nat then NaN
  else mean (firstn window (skipn (i + 1 - window) vals)).

Definition rolling_mean (data_series : series) (window : nat)
  : list (Z * fl) :=
  combine (index data_series)
    (map (window_mean (values data_series) window)
       (seq 0 (length data_series))).

(** [np.abs((data_series - rolling_mean) / rolling_mean)], element by
    element: both operands carry the same index. *)
Definition deviation_pct (data_series : series) (rm : list (Z * fl))
  : list (Z * fl) :=
  map (fun '((date, v), (_, m)) => (date, abs (div (sub (Fin v) m) m)))
    (combine data_series rm).

(** [s.loc[label]]: the element when the label occurs once, the sub-series
    of all its occurrences when it occurs several times. *)
Inductive loc_result (A : Type) : Type :=
| Scalar (x : A)
| SubSeries (xs : list A).
Arguments Scalar {A} x.
Arguments SubSeries {A} xs.

Definition loc {A} (s : list (Z * A)) (label : Z) : result (loc_result A) :=
  match filter (fun p => Z.eqb (fst p) label) s with
  | [] => Raise (KeyError "label")
  | [(_, x)] => Ok (Scalar x)
  | l => Ok (SubSeries (values l))
  end.

(** [if dev > bound:] the truth value of a comparison on a sub-series is
    ambiguous. *)
Definition truth_gt (dev : loc_result fl) (bound : Q) : result bool :=
  match dev with
  | Scalar x => Ok (gtb x (Fin bound))
  | SubSeries _ =>
      Raise (ValueError "The truth value of a Series is ambiguous")
  end.

(** [float(x)] *)
Definition py_float {A} (x : loc_result A) : result A :=
  match x with
  | Scalar a => Ok a
  | SubSeries _ => Raise (TypeError "cannot convert the series to float")
  end.

Fixpoint rolling_loop (data_series : series) (rm dev_pct : list (Z * fl))
  (valid_indices : list Z) : result (list entry) :=
  match valid_indices with
  | [] => Ok []
  | date :: rest =>
      dev <- loc dev_pct date ;;
      flagged <- truth_gt dev (1 # 2) ;;
      here <-
        (if flagged : bool then
           value <- bind (loc data_series date) py_float ;;
           m <- bind (loc rm date) py_float ;;
           d <- py_float dev ;;
           Ok [RollEntry date value m d]
         else Ok []) ;;
      more <- rolling_loop data_series rm dev_pct rest ;;
      Ok (here ++ more)
  end.

Definition rolling_average_deviation (data_series : series) (window : nat)
  : result (list entry) :=
  if (length data_series <? window)%nat then Ok []
  else
    let rm := rolling_mean data_series window in
    let dev_pct := deviation_pct data_series rm in
    let valid_indices := skipn window (index dev_pct) in
    rolling_loop data_series rm dev_pct valid_indices.

(* ------------------------------------------------------------------ *)
(** ** Aggregation and validation *)

Record candidate : Type := {
  c_date : Z;
  c_value : Q;
  c_methods : list method;
  c_details : dict method entry
}.

Inductive anomaly_kind : Type := spike | drop.

Record alert : Type := {
  a_date : Z;
  a_metric_name : string;
  a_anomaly_value : Q;
  a_severity_score : fl;
  a_anomaly_type : anomaly_kind;
  a_detection_methods : list method;
  a_district : option string;
  a_state : option string
}.

Definition add_finding (findings : dict Z candidate) (date_key : Z)
  (e : entry) : dict Z candidate :=
  let findings :=
    if dict_mem Z.eqb date_key findings then findings
    else
      dict_set Z.eqb date_key
        {| c_date := entry_date e; c_value := entry_value e;
           c_methods := []; c_details := [] |}
        findings in
  dict_modify Z.eqb date_key
    (fun f =>
       {| c_date := c_date f; c_value := c_value f;
          c_methods := c_methods f ++ [entry_method e];
          c_details := dict_set method_eqb (entry_method e) e (c_details f) |})
    findings.

Definition add_findings (findings : dict Z candidate) (l : list entry)
  : dict Z candidate :=
  fold_left (fun fs a => add_finding fs (entry_date a) a) l findings.

(** The body of the cross-validation loop, for one candidate. [series_mean]
    is [series.mean()]. *)
Definition validate (series_mean : fl) (state district : option string)
  (f : candidate) : result (list alert) :=
  if (2 <=? length (c_methods f))%nat then
    let val := c_value f in
    is_spike <-
      match dict_get method_eqb rolling_deviation (c_details f) with
      | Some e =>
          roll_mean <- entry_rolling_mean e ;;
          Ok (if ltb (Fin val) roll_mean then false else true)
      | None => Ok (if ltb (Fin val) series_mean then false else true)
      end ;;
    let anom_type := if is_spike : bool then spike else drop in
    severity <-
      match dict_get method_eqb z_score (c_details f) with
      | Some e => z <- entry_z_score e ;; Ok (py_min (Fin 10) z)
      | None => Ok (Fin 5)
      end ;;
    Ok [ {| a_date := c_date f;
            a_metric_name := "daily_enrollments";
            a_anomaly_value := val;
            a_severity_score := py_round severity 2;
            a_anomaly_type := anom_type;
            a_detection_methods := c_methods f;
            a_district := district;
            a_state := state |} ]
  else Ok [].

Fixpoint validate_all (series_mean : fl) (state district : option string)
  (items : list (Z * candidate)) : result (list alert) :=
  match items with
  | [] => Ok []
  | (_, f) :: rest =>
      here <- validate series_mean state district f ;;
      more <- validate_all series_mean state district rest ;;
      Ok (here ++ more)
  end.

Section Report.
Variable fsqrt : Q -> Q.

Definition collect_findings (z_anomalies iqr_anoms roll_anoms : list entry)
  : dict Z candidate :=
  add_findings (add_findings (add_findings [] z_anomalies) iqr_anoms)
    roll_anoms.

(** [comprehensive_anomaly_report] from the point where the series has been
    fetched and found non-empty. *)
Definition analyze (state district : option string) (series : series)
  : result (list alert) :=
  let z_anomalies := z_score_anomalies fsqrt series 3 in
  let iqr_anoms := iqr_outliers series in
  roll_anoms <- rolling_average_deviation series 30 ;;
  let findings := collect_findings z_anomalies iqr_anoms roll_anoms in
  validate_all (mean (values series)) state district findings.

End Report.

(* ------------------------------------------------------------------ *)
(** ** Provider, sink and the daily scan *)

(** What [pd.read_sql] and [DataFrame.to_sql] do against the engine. *)
Record database : Type := {
  read_sql_enrollments :
    option string -> option string -> nat -> result series;
  read_sql_districts : result (list (string * string));
  to_sql_anomaly_alerts : list alert -> result unit
}.

(** What a run leaves behind: the lines printed and the rows appended to
    the [anomaly_alerts] table. *)
Record world : Type := {
  stdout : list string;
  anomaly_alerts : list alert
}.

Definition print (line : string) (w : world) : world :=
  {| stdout := stdout w ++ [line]; anomaly_alerts := anomaly_alerts w |}.

Definition py_str_nat (n : nat) : string :=
  NilEmpty.string_of_uint (Nat.to_uint n).

(** [if state:] on an optional string. *)
Definition truthy (s : option string) : option string :=
  match s with
  | Some EmptyString => None
  | _ => s
  end.

Fixpoint insert_by_date (p : Z * Q) (l : series) : series :=
  match l with
  | [] => [p]
  | q :: l' =>
      if (fst p <? fst q)%Z then p :: l else q :: insert_by_date p l'
  end.

(** [df.sort_values('date')] *)
Definition sort_by_date (df : series) : series :=
  fold_right insert_by_date [] df.

Definition get_time_series_data (db : database)
  (state district : option string) (days : nat) (w : world)
  : series * world :=
  match read_sql_enrollments db (truthy state) (truthy district) (days + 60)
  with
  | Ok df => (sort_by_date df, w)
  | Raise e => ([], print ("Data fetch error: " ++ exc_msg e) w)
  end.

Section Scan.
Variable fsqrt : Q -> Q.
Variable db : database.

Definition comprehensive_anomaly_report (state district : option string)
  (days : nat) (w : world) : result (list alert) * world :=
  let '(df, w) := get_time_series_data db state district days w in
  match df with
  | [] => (Ok [], w)
  | _ => (analyze fsqrt state district df, w)
  end.

(** The [for _, row in districts_df.iterrows()] loop. *)
Fixpoint scan_rows (rows : list (string * string)) (all_alerts : list alert)
  (w : world) : result (list alert) * world :=
  match rows with
  | [] => (Ok all_alerts, w)
  | (st, di) :: rest =>
      match comprehensive_anomaly_report (Some st) (Some di) 90 w with
      | (Ok alerts, w) => scan_rows rest (all_alerts ++ alerts) w
      | (Raise e, w) => (Raise e, w)
      end
  end.

(** The body of the [try] block. *)
Definition scan_body (w : world) : result unit * world :=
  match read_sql_districts db with
  | Raise e => (Raise e, w)
  | Ok districts_df =>
      match scan_rows districts_df [] w with
      | (Raise e, w) => (Raise e, w)
      | (Ok [], w) => (Ok tt, w)
      | (Ok all_alerts, w) =>
          match to_sql_anomaly_alerts db all_alerts with
          | Raise e => (Raise e, w)
          | Ok _ =>
              (Ok tt,
               print ("Inserted " ++ py_str_nat (length all_alerts)
                      ++ " alerts.")
                 {| stdout := stdout w;
                    anomaly_alerts := anomaly_alerts w ++ all_alerts |})
          end
      end
  end.

Definition detect_anomalies_daily (w : world) : result unit * world :=
  let w := print "Starting Anomaly Detection..." w in
  match scan_body w with
  | (Ok _, w) => (Ok tt, w)
  | (Raise e, w) => (Ok tt, print ("Error in daily detection: " ++ exc_msg e) w)
  end.

End Scan.

(* ------------------------------------------------------------------ *)
(** ** The service copy, the task and the view

    [src/uidai_analytics/analytics/services/anomaly.py] repeats the
    detectors and the report word for word; what differs is where the engine
    comes from.  [get_engine()] is called at the top of
    [get_time_series_data] and of [detect_anomalies_daily_sync], outside
    their [try] blocks, and it can raise. *)

Section Service.
Variable fsqrt : Q -> Q.
(** What [utils.db_connector.get_engine()] does: hand out the engine, or
    raise. *)
Variable get_engine : result database.

Definition service_get_time_series_data (state district : option string)
  (days : nat) (w : world) : result series * world :=
  match get_engine with
  | Raise e => (Raise e, w)
  | Ok engine =>
      let '(df, w) := get_time_series_data engine state district days w in
      (Ok df, w)
  end.

Definition service_comprehensive_anomaly_report
  (state district : option string) (days : nat) (w : world)
  : result (list alert) * world :=
  match service_get_time_series_data state district days w with
  | (Raise e, w) => (Raise e, w)
  | (Ok [], w) => (Ok [], w)
  | (Ok df, w) => (analyze fsqrt state district df, w)
  end.

Fixpoint service_scan_rows (rows : list (string * string))
  (all_alerts : list alert) (w : world) : result (list alert) * world :=
  match rows with
  | [] => (Ok all_alerts, w)
  | (st, di) :: rest =>
      match service_comprehensive_anomaly_report (Some st) (Some di) 90 w
      with
      | (Ok alerts, w) => service_scan_rows rest (all_alerts ++ alerts) w
      | (Raise e, w) => (Raise e, w)
      end
  end.

Definition detect_anomalies_daily_sync (w : world) : result unit * world :=
  match get_engine with
  | Raise e => (Raise e, w)
  | Ok engine =>
      let attempt :=
        match read_sql_districts engine with
        | Raise e => (Raise e, w)
        | Ok districts_df =>
            match service_scan_rows districts_df [] w with
            | (Raise e, w) => (Raise e, w)
            | (Ok [], w) => (Ok tt, w)
            | (Ok all_alerts, w) =>
                match to_sql_anomaly_alerts engine all_alerts with
                | Raise e => (Raise e, w)
                | Ok _ =>
                    (Ok tt,
                     print ("Inserted " ++ py_str_nat (length all_alerts)
                            ++ " alerts.")
                       {| stdout := stdout w;
                          anomaly_alerts := anomaly_alerts w ++ all_alerts |})
                end
            end
        end in
      match attempt with
      | (Ok _, w) => (Ok tt, w)
      | (Raise e, w) => (Ok tt, print ("Error in detection: " ++ exc_msg e) w)
      end
  end.

(** *** [tasks.generate_anomaly_report_task] *)

(** How a task run ends: with its return value, or by asking Celery for a
    retry with the exception that was caught. *)
Inductive task_outcome : Type :=
| Returned (status message : string)
| Retried (exc_caught : exc) (countdown : nat).

(** [f"{x}"] for an optional string. *)
Definition py_str_opt (x : option string) : string :=
  match x with Some v => v | None => "None" end.

(** The task's effects: those of the scan, and the lines it logs. *)
Definition generate_anomaly_report_task (params : dict string string)
  (w : world) (log : list string) : task_outcome * world * list string :=
  let state := dict_get String.eqb "state"%string params in
  let log :=
    log ++ [("Generating anomaly report for " ++ py_str_opt state)%string] in
  match detect_anomalies_daily_sync w with
  | (Ok _, w) =>
      (Returned "success" "Anomaly scan completed", w,
       log ++ ["Anomaly report generated"%string])
  | (Raise e, w) =>
      (Retried e 60, w,
       log ++ [("Anomaly generation failed: " ++ exc_msg e)%string])
  end.

(** *** [views.AnomalyListView.get] *)

Inductive response : Type :=
| Response200 (report : list alert)
| Response500 (error : string).

Definition anomaly_list_view (w : world) : response * world :=
  match service_comprehensive_anomaly_report None None 90 w with
  | (Ok report, w) => (Response200 report, w)
  | (Raise e, w) => (Response500 (exc_msg e), w)
  end.

End Service.

(* ------------------------------------------------------------------ *)
(** ** Concrete inputs used below *)

(** A square root rounded up to six decimals, to run the model. *)
Definition sqrt6 (q : Q) : Q :=
  Qred (Z.sqrt_up (Qceiling (q * (10 ^ 12 # 1))) # 1000000).

Definition days_from (start : Z) (vals : list Q) : series :=
  combine (map (fun i => (start + Z.of_nat i)%Z) (seq 0 (length vals))) vals.

(** *** The rolling detector, position by position

    The detector addresses its three working series by label.  To reason by
    position they are put side by side: row [i] holds the label and value at
    position [i], the rolling mean there and the deviation ratio there. *)

Definition row : Type := (Z * (Q * fl * fl))%type.

Definition make_row (vals : list Q) (window : nat) (p : nat * (Z * Q)) : row :=
  let m := window_mean vals window (fst p) in
  (fst (snd p), (snd (snd p), m, abs (div (sub (Fin (snd (snd p))) m) m))).

Definition rows_from (vals : list Q) (window start : nat) (s : series)
  : list row :=
  map (make_row vals window) (combine (seq start (length s)) s).

Definition rows (s : series) (window : nat) : list row :=
  rows_from (values s) window 0 s.

Definition row_value (r : row) : Z * Q := (fst r, fst (fst (snd r))).
Definition row_mean (r : row) : Z * fl := (fst r, snd (fst (snd r))).
Definition row_dev (r : row) : Z * fl := (fst r, snd (snd r)).

(** What the loop body appends for a row. *)
Definition flag_row (r : row) : list entry :=
  let '(date, (value, m, dev)) := r in
  if gtb dev (Fin (1 # 2)) then [RollEntry date value m dev] else [].

(** Every label met from position [window] on occurs once in the series. *)
Definition tail_labels_unique (s : series) (w : nat) : Prop :=
  Forall
    (fun r : row =>
       filter (fun r' : row => Z.eqb (fst r') (fst r)) (rows s w) = [r])
    (skipn w (rows s w)).

(** A date carries a finding in a detector's output. *)
Definition flagged_at (out : list entry) (d : Z) : Prop :=
  exists e, In e out /\ entry_date e = d.

(** The deviation ratio the detector compares with 0.5. *)
Definition ratio (v : Q) (m : fl) : fl := abs (div (sub (Fin v) m) m).



(** "A position whose rolling mean is exactly zero is never flagged." *)
Definition zero_mean_never_flagged (s : series) (window : nat) : Prop :=
  forall out, rolling_average_deviation s window = Ok out ->
  forall i d v m, nth_error s i = Some (d, v) ->
  window_mean (values s) window i = Fin m -> m == 0 ->
  ~ flagged_at out d.

Definition step_series : series := days_from 0 [1; 10; 3].
Definition full_window_series : series := days_from 0 [1; 10].
Definition cancelling_series : series := days_from 0 [0; -5; 5].
Definition idle_series : series := days_from 0 [4; 0; 0; 0].

(** *** Vocabulary for the aggregation *)

Definition on_date (d : Z) (e : entry) : bool := Z.eqb (entry_date e) d.

(** The findings of a list that bear on one date, in order. *)
Definition findings_on (d : Z) (l : list entry) : list entry :=
  filter (on_date d) l.

(** The last finding of method [m] for date [d]: the one a later
    assignment to [details[m]] leaves in place. *)
Definition latest (d : Z) (m : method) (l : list entry) : option entry :=
  find (fun e => on_date d e && method_eqb m (entry_method e)) (rev l).

Definition fresh_candidate (e : entry) : candidate :=
  {| c_date := entry_date e; c_value := entry_value e;
     c_methods := []; c_details := [] |}.

Definition record_finding (e : entry) (f : candidate) : candidate :=
  {| c_date := c_date f; c_value := c_value f;
     c_methods := c_methods f ++ [entry_method e];
     c_details := dict_set method_eqb (entry_method e) e (c_details f) |}.

(** What the store holds for a date once a list of findings has been
    added to the empty store. *)
Definition candidate_of (l : list entry) (d : Z) (o : option candidate)
  : Prop :=
  match o with
  | None => findings_on d l = []
  | Some f =>
      c_date f = d /\
      option_map entry_value (hd_error (findings_on d l)) = Some (c_value f) /\
      c_methods f = map entry_method (findings_on d l) /\
      forall m, dict_get method_eqb m (c_details f) = latest d m l
  end.

(** The detection methods with at least one finding on date [d]. *)
Definition methods_fired (z_anomalies iqr_anoms roll_anoms : list entry)
  (d : Z) : list method :=
  (if existsb (on_date d) z_anomalies then [z_score] else [])
  ++ (if existsb (on_date d) iqr_anoms then [iqr] else [])
  ++ (if existsb (on_date d) roll_anoms then [rolling_deviation] else []).

(** An alert is reported for date [d]. *)
Definition reported_at (alerts : list alert) (d : Z) : Prop :=
  exists a, In a alerts /\ a_date a = d.

(** "An alert is reported for a date exactly when at least two distinct
    methods fired on it." *)
Definition validated_iff_two_methods (fsqrt : Q -> Q) (s : series) : Prop :=
  forall alerts, analyze fsqrt None None s = Ok alerts ->
  forall roll_anoms, rolling_average_deviation s 30 = Ok roll_anoms ->
  forall d,
    reported_at alerts d <->
    (2 <= length (methods_fired (z_score_anomalies fsqrt s 3)
                    (iqr_outliers s) roll_anoms d))%nat.

Definition twin_series : series :=
  [(0%Z, 10); (1%Z, 10); (2%Z, 10); (3%Z, 10); (4%Z, 10); (5%Z, 10);
   (6%Z, 10); (7%Z, 10); (8%Z, 100); (8%Z, 100)].

(** Twenty-one quiet days, then one day at 1000. *)
Definition spike_series : series := days_from 0 (repeat 10 21 ++ [1000]).

(** Thirty-two quiet days, one day at 1000, two quiet days. *)
Definition outlier_series : series :=
  days_from 0 (repeat 10 32 ++ [1000; 10; 10]).

(** Thirty-two days at 100, one day at 10, two days at 100; what the
    rolling detector and the report make of it. *)
Definition dip_series : series :=
  days_from 0 (repeat 100 32 ++ [10; 100; 100]).

Definition dip_rolling : list entry :=
  [RollEntry 32 10 (Fin 97) (Fin (87 # 97))].

Definition dip_alert : alert :=
  {| a_date := 32;
     a_metric_name := "daily_enrollments";
     a_anomaly_value := 10;
     a_severity_score := Fin (583 # 100);
     a_anomaly_type := drop;
     a_detection_methods := [z_score; iqr; rolling_deviation];
     a_district := None;
     a_state := None |}.

(** *** Vocabulary for the daily scan *)

Section ScanVocabulary.
Variable fsqrt : Q -> Q.
Variable db : database.

(** What the provider answers for one (state, district) row of the scan. *)
Definition fetch (p : string * string) : result series :=
  read_sql_enrollments db (truthy (Some (fst p))) (truthy (Some (snd p)))
    (90 + 60).

Definition fetch_fails (p : string * string) : Prop :=
  exists e, fetch p = Raise e.

(** The detection step of a partition whose fetch succeeds does not
    raise. *)
Definition detection_returns (p : string * string) : Prop :=
  forall df, fetch p = Ok df ->
  exists alerts,
    analyze fsqrt (Some (fst p)) (Some (snd p)) (sort_by_date df) = Ok alerts.

(** The alerts one partition contributes: those of its series, and none
    when its fetch fails or its series is empty. *)
Definition partition_alerts (p : string * string) : list alert :=
  match fetch p with
  | Ok df =>
      match sort_by_date df with
      | [] => []
      | series =>
          match analyze fsqrt (Some (fst p)) (Some (snd p)) series with
          | Ok alerts => alerts
          | Raise _ => []
          end
      end
  | Raise _ => []
  end.

(** The line one partition leaves on the output: one per failed fetch. *)
Definition partition_log (p : string * string) : list string :=
  match fetch p with
  | Ok _ => []
  | Raise e => [("Data fetch error: " ++ exc_msg e)%string]
  end.

End ScanVocabulary.

(** Three partitions; the provider fails on the second. *)
Definition flaky_db : database :=
  {| read_sql_enrollments := fun state _ _ =>
       match state with
       | Some "S1"%string => Ok dip_series
       | Some "S2"%string => Raise (DatabaseError "connection lost")
       | _ => Ok spike_series
       end;
     read_sql_districts :=
       Ok [("S1", "D1"); ("S2", "D2"); ("S3", "D3")]%string;
     to_sql_anomaly_alerts := fun _ => Ok tt |}.

Definition flaky_rows : list (string * string) :=
  [("S1", "D1"); ("S2", "D2"); ("S3", "D3")]%string.

Definition empty_world : world := {| stdout := []; anomaly_alerts := [] |}.

Definition spike_alert : alert :=
  {| a_date := 21;
     a_metric_name := "daily_enrollments";
     a_anomaly_value := 1000;
     a_severity_score := Fin (229 # 50);
     a_anomaly_type := spike;
     a_detection_methods := [z_score; iqr];
     a_district := Some "D3"%string;
     a_state := Some "S3"%string |}.

(** The detection step of a partition raises [e]: its fetch succeeds with
    a non-empty frame and the analysis of that frame raises. *)
Definition detection_raises (fsqrt : Q -> Q) (db : database)
  (p : string * string) (e : exc) : Prop :=
  exists df, fetch db p = Ok df /\ sort_by_date df <> [] /\
    analyze fsqrt (Some (fst p)) (Some (snd p)) (sort_by_date df) = Raise e.

(** The line the scan prints after a successful insertion. *)
Definition inserted_line (alerts : list alert) : list string :=
  match alerts with
  | [] => []
  | _ => [("Inserted " ++ py_str_nat (length alerts) ++ " alerts.")%string]
  end.

(** Thirty-two points in which the date of the last but one comes again. *)
Definition repeated_date_series : series :=
  days_from 0 (repeat 10 31) ++ [(30%Z, 10)].

(** As [flaky_db], but the second partition's series repeats a date. *)
Definition repeated_date_db : database :=
  {| read_sql_enrollments := fun state _ _ =>
       match state with
       | Some "S1"%string => Ok dip_series
       | Some "S2"%string => Ok repeated_date_series
       | _ => Ok spike_series
       end;
     read_sql_districts := Ok flaky_rows;
     to_sql_anomaly_alerts := fun _ => Ok tt |}.

(** As [flaky_db], but the sink refuses the insertion. *)
Definition broken_sink_db : database :=
  {| read_sql_enrollments := read_sql_enrollments flaky_db;
     read_sql_districts := Ok flaky_rows;
     to_sql_anomaly_alerts := fun _ => Raise (DatabaseError "disk full") |}.

(** The whole table at once: the view asks for no state and no district,
    and gets one row per pincode and date. *)
Definition pincode_db : database :=
  {| read_sql_enrollments := fun _ _ _ => Ok repeated_date_series;
     read_sql_districts := Ok flaky_rows;
     to_sql_anomaly_alerts := fun _ => Ok tt |}.

(** Ascending dates. *)
Definition date_le (a b : Z * Q) : Prop := (fst a <= fst b)%Z.

(** The alert the report makes of [twin_series]. *)
Definition twin_alert : alert :=
  {| a_date := 8;
     a_metric_name := "daily_enrollments";
     a_anomaly_value := 100;
     a_severity_score := Fin 5;
     a_anomaly_type := spike;
     a_detection_methods := [iqr; iqr];
     a_district := None;
     a_state := None |}.



(** The series is constant: every value equals the same number. *)
Definition constant_series (s : series) : Prop :=
  exists c, Forall (fun v => v == c) (values s).

(** [a.std()] evaluates to zero. *)
Definition std_zero (fsqrt : Q -> Q) (a : list Q) : Prop :=
  exists sd, np_std fsqrt a = Fin sd /\ sd == 0.

Definition short_series : series := days_from 0 [1; 2].

Definition constant_example : series := days_from 0 [7; 7; 7; 7].

(* ================================================================== *)
(** * Properties *)

(** ** Facts about the number model *)

Lemma Qltb_true (x y : Q) : Qltb x y = true <-> x < y.
Proof.
  unfold Qltb. rewrite negb_true_iff.
  destruct (Qle_bool y x) eqn:E.
  - apply Qle_bool_iff in E. split; [discriminate | intros H; lra].
  - split; [intros _ | reflexivity].
    apply Qnot_le_lt. intros H. apply Qle_bool_iff in H. congruence.
Qed.

Lemma Qltb_false (x y : Q) : Qltb x y = false <-> y <= x.
Proof.
  destruct (Qltb x y) eqn:E.
  - apply Qltb_true in E. split; [discriminate | intros H; lra].
  - split; [intros _ | reflexivity].
    apply Qnot_lt_le. intros H. apply Qltb_true in H. congruence.
Qed.

Lemma Qzero_true (x : Q) : Qzero x = true <-> x == 0.
Proof. unfold Qzero. apply Qeq_bool_iff. Qed.

Lemma Qzero_false (x : Q) : Qzero x = false <-> ~ x == 0.
Proof.
  rewrite <- Qzero_true. destruct (Qzero x); split; congruence.
Qed.

Lemma gtb_Fin (a b : Q) : gtb (Fin a) (Fin b) = true <-> b < a.
Proof. unfold gtb; simpl. apply Qltb_true. Qed.

Lemma of_nat_pos (n : nat) : (0 < n)%nat -> 0 < of_nat n.
Proof.
  intros H. unfold of_nat, Qlt; simpl. lia.
Qed.

Lemma mean_Fin (l : list Q) :
  l <> [] -> exists m, mean l = Fin m /\ m == Qsum l / of_nat (length l).
Proof.
  destruct l as [|x l]; [congruence | intros _].
  eexists; split; [reflexivity | apply Qred_correct].
Qed.


Lemma Qsquare_nonneg (y : Q) : 0 <= y * y.
Proof.
  destruct (Qlt_le_dec y 0) as [H|H].
  - setoid_replace (y * y) with ((- y) * (- y)) by ring.
    apply Qmult_le_0_compat; lra.
  - apply Qmult_le_0_compat; lra.
Qed.

Lemma Qsum_nonneg (l : list Q) :
  Forall (fun x => 0 <= x) l -> 0 <= Qsum l.
Proof.
  induction 1; simpl; lra.
Qed.

Lemma Qsum_nonneg_zero (l : list Q) :
  Forall (fun x => 0 <= x) l -> Qsum l == 0 -> Forall (fun x => x == 0) l.
Proof.
  induction 1 as [|x l Hx Hl IH]; simpl; intros Hs; constructor.
  - pose proof (Qsum_nonneg _ Hl). lra.
  - apply IH. pose proof (Qsum_nonneg _ Hl). lra.
Qed.

Lemma Qsum_const (c : Q) (l : list Q) :
  Forall (fun x => x == c) l -> Qsum l == of_nat (length l) * c.
Proof.
  induction 1 as [|x l Hx Hl IH].
  - simpl. unfold of_nat. simpl. lra.
  - cbn [Qsum length]. rewrite IH, Hx.
    unfold of_nat. rewrite Nat2Z.inj_succ. unfold Z.succ.
    rewrite (Qmake_Qdiv (Z.of_nat (length l) + 1) 1), (Qmake_Qdiv (Z.of_nat (length l)) 1).
    rewrite inject_Z_plus. field.
Qed.

(** ** Insufficient data *)

(** C8. A series shorter than a detector's minimum length (3 for Z-score, 5
    for IQR, the window for rolling deviation) makes that detector return an
    empty list of findings; the rolling detector, the only one with a failure
    path, returns normally. *)
Theorem short_series_yield_no_findings
  (fsqrt : Q -> Q) (s : series) (threshold : Q) (window : nat) :
  ((length s < 3)%nat -> z_score_anomalies fsqrt s threshold = []) /\
  ((length s < 5)%nat -> iqr_outliers s = []) /\
  ((length s < window)%nat -> rolling_average_deviation s window = Ok []).
Proof.
  split; [|split]; intros H.
  - unfold z_score_anomalies.
    destruct (Nat.ltb_spec (length s) 3); [reflexivity | lia].
  - unfold iqr_outliers.
    destruct (Nat.ltb_spec (length s) 5); [reflexivity | lia].
  - unfold rolling_average_deviation.
    destruct (Nat.ltb_spec (length s) window); [reflexivity | lia].
Qed.

Lemma short_series_yield_no_findings_witness :
  z_score_anomalies sqrt6 short_series 3 = [] /\
  iqr_outliers short_series = [] /\
  rolling_average_deviation short_series 30 = Ok [].
Proof.
  destruct (short_series_yield_no_findings sqrt6 short_series 3 30)
    as (Hz & Hi & Hr).
  split; [|split]; [apply Hz | apply Hi | apply Hr]; simpl; lia.
Defined.

(** ** Constant series and the Z-score detector *)

Lemma flat_map_nil {A B} (f : A -> list B) (l : list A) :
  (forall x, In x l -> f x = []) -> flat_map f l = [].
Proof.
  induction l as [|x l IH]; simpl; intros H; [reflexivity|].
  rewrite (H x (or_introl eq_refl)), IH; auto.
Qed.

Section ZScoreConstant.
Variable fsqrt : Q -> Q.
Hypothesis fsqrt_zero : forall q, 0 <= q -> (fsqrt q == 0 <-> q == 0).

Lemma constant_std_zero (a : list Q) (c : Q) :
  a <> [] -> Forall (fun v => v == c) a -> std_zero fsqrt a.
Proof.
  intros Hne Hc.
  destruct (mean_Fin _ Hne) as (mn & Hmn & Hmv).
  assert (Hlen : 0 < of_nat (length a)).
  { apply of_nat_pos. destruct a; simpl; [congruence | lia]. }
  assert (Hmc : mn == c).
  { rewrite Hmv, (Qsum_const _ _ Hc). field. lra. }
  set (sq := map (fun x => Qred ((x - mn) * (x - mn))) a).
  assert (Hsq0 : Forall (fun x => x == 0) sq).
  { unfold sq. apply Forall_map. eapply Forall_impl; [|exact Hc].
    cbv beta. intros x Hx. rewrite Qred_correct, Hx, Hmc. ring. }
  assert (Hsqne : sq <> []).
  { unfold sq. destruct a; simpl; congruence. }
  destruct (mean_Fin _ Hsqne) as (var & Hvar & Hvv).
  assert (Hv0 : var == 0).
  { rewrite Hvv, (Qsum_const _ _ Hsq0). field.
    unfold sq. rewrite length_map. lra. }
  exists (fsqrt var). split.
  - unfold np_std. rewrite Hmn. fold sq. rewrite Hvar. simpl.
    replace (Qltb var 0) with false; [reflexivity|].
    symmetry. apply Qltb_false. lra.
  - apply fsqrt_zero; lra.
Qed.

Lemma std_zero_zscore_NaN (a : list Q) :
  std_zero fsqrt a -> Forall (fun z => z = NaN) (zscore fsqrt a).
Proof.
  intros (sd & Hsd & Hz). unfold zscore. rewrite Hsd.
  unfold np_std in Hsd.
  destruct (mean a) as [mn| | |] eqn:Hmn; try discriminate.
  set (sq := map (fun x => Qred ((x - mn) * (x - mn))) a) in *.
  assert (Hne : a <> []) by (intros ->; discriminate).
  assert (Hsqne : sq <> []).
  { unfold sq. destruct a; simpl; congruence. }
  destruct (mean_Fin _ Hsqne) as (var & Hvar & Hvv).
  rewrite Hvar in Hsd. simpl in Hsd.
  destruct (Qltb var 0) eqn:Hneg; [discriminate|].
  injection Hsd as <-.
  apply Qltb_false in Hneg.
  apply (proj1 (fsqrt_zero _ Hneg)) in Hz.
  assert (Hlen : 0 < of_nat (length sq)).
  { apply of_nat_pos. destruct sq; simpl; [congruence | lia]. }
  assert (Hsum : Qsum sq == 0).
  { rewrite Hz in Hvv.
    assert (Qsum sq == (Qsum sq / of_nat (length sq)) * of_nat (length sq))
      as -> by (field; lra).
    rewrite <- Hvv. ring. }
  assert (Hall : Forall (fun x => x == 0) sq).
  { apply Qsum_nonneg_zero; [|exact Hsum].
    unfold sq. apply Forall_map, Forall_forall. intros x _.
    cbv beta. rewrite Qred_correct. apply Qsquare_nonneg. }
  unfold sq in Hall. rewrite Forall_map in Hall.
  apply Forall_map. eapply Forall_impl; [|exact Hall].
  cbv beta. intros x Hx. rewrite Qred_correct in Hx.
  assert (Hd : x - mn == 0).
  { destruct (Qmult_integral _ _ Hx); assumption. }
  cbn [sub div].
  replace (Qzero (fsqrt var)) with true
    by (symmetry; apply Qzero_true, fsqrt_zero; lra).
  replace (Qzero (Qred (x - mn))) with true; [reflexivity|].
  symmetry. apply Qzero_true. rewrite Qred_correct. exact Hd.
Qed.

(** C7. On a series of at least 3 points whose standard deviation is zero,
    which is what a constant series gives, the Z-score detector returns the
    empty list, whatever the threshold: the division by the zero deviation
    yields NaN, which exceeds nothing, and raises nothing. *)
Theorem zero_deviation_flags_nothing (s : series) (threshold : Q) :
  (3 <= length s)%nat ->
  constant_series s \/ std_zero fsqrt (values s) ->
  z_score_anomalies fsqrt s threshold = [].
Proof.
  intros Hlen Hs.
  assert (Hstd : std_zero fsqrt (values s)).
  { destruct Hs as [(c & Hc) | H]; [|exact H].
    apply (constant_std_zero _ c); [|exact Hc].
    destruct s; simpl in *; [lia | congruence]. }
  unfold z_score_anomalies.
  destruct (Nat.ltb_spec (length s) 3); [reflexivity|].
  apply flat_map_nil. intros [[date value] z] Hin.
  apply in_combine_r in Hin. apply in_map_iff in Hin as (z0 & <- & Hz0).
  pose proof (std_zero_zscore_NaN _ Hstd) as Hnan.
  rewrite Forall_forall in Hnan. rewrite (Hnan _ Hz0). reflexivity.
Qed.

End ZScoreConstant.

Lemma sqrt6_zero (q : Q) : 0 <= q -> (sqrt6 q == 0 <-> q == 0).
Proof.
  intros Hq. unfold sqrt6. rewrite Qred_correct.
  set (c := Qceiling (q * (10 ^ 12 # 1))).
  assert (Hc : (0 < c)%Z <-> 0 < q).
  { unfold c. split; intros H.
    - assert (Hlt := Qlt_floor (q * (10 ^ 12 # 1))).
      destruct (Qlt_le_dec 0 q) as [|Hle]; [assumption|].
      assert (Hq0 : q == 0) by lra.
      rewrite (Qceiling_comp _ 0) in H by (rewrite Hq0; ring).
      discriminate.
    - assert (Hle := Qle_ceiling (q * (10 ^ 12 # 1))).
      assert (Hp : 0 < q * (10 ^ 12 # 1)).
      { apply Qmult_lt_0_compat; [assumption | reflexivity]. }
      assert (H0 : 0 < inject_Z (Qceiling (q * (10 ^ 12 # 1)))) by lra.
      rewrite Zlt_Qlt. exact H0. }
  split; intros H.
  - destruct (Qlt_le_dec 0 q) as [Hpos|Hle]; [|lra].
    apply Hc in Hpos. apply (proj2 (Z.sqrt_up_pos c)) in Hpos.
    unfold Qeq in H; simpl in H. lia.
  - assert (Hn : ~ (0 < c)%Z) by (rewrite Hc; lra).
    assert (Hs : Z.sqrt_up c = 0%Z).
    { pose proof (Z.sqrt_up_nonneg c) as Hge.
      destruct (Z.eq_dec (Z.sqrt_up c) 0) as [|Hne]; [assumption|].
      assert (Hlt : (0 < Z.sqrt_up c)%Z) by lia.
      exfalso. apply Hn. apply (proj1 (Z.sqrt_up_pos c)). exact Hlt. }
    rewrite Hs. reflexivity.
Qed.

Lemma zero_deviation_flags_nothing_witness :
  z_score_anomalies sqrt6 constant_example 3 = [].
Proof.
  apply (@zero_deviation_flags_nothing sqrt6 sqrt6_zero constant_example 3).
  - simpl. lia.
  - left. exists 7. repeat constructor.
Defined.

(** ** The rolling detector by position *)

Lemma rows_from_value (vals : list Q) (w a : nat) (s : series) :
  map row_value (rows_from vals w a s) = s.
Proof.
  unfold rows_from. revert a.
  induction s as [|[d v] s IH]; intros a; [reflexivity|].
  simpl. f_equal. apply IH.
Qed.

Lemma rows_from_mean (vals : list Q) (w a : nat) (s : series) :
  combine (index s) (map (window_mean vals w) (seq a (length s)))
  = map row_mean (rows_from vals w a s).
Proof.
  unfold rows_from. revert a.
  induction s as [|[d v] s IH]; intros a; [reflexivity|].
  simpl. f_equal. apply IH.
Qed.

Lemma rows_from_dev (vals : list Q) (w a : nat) (s : series) :
  deviation_pct s (map row_mean (rows_from vals w a s))
  = map row_dev (rows_from vals w a s).
Proof.
  unfold rows_from, deviation_pct. revert a.
  induction s as [|[d v] s IH]; intros a; [reflexivity|].
  simpl. f_equal. apply IH.
Qed.

Lemma rows_length (s : series) (w : nat) : length (rows s w) = length s.
Proof.
  rewrite <- (rows_from_value (values s) w 0 s) at 2.
  symmetry. apply length_map.
Qed.

Lemma rows_from_nth (vals : list Q) (w a i : nat) (s : series) (r : row) :
  nth_error (rows_from vals w a s) i = Some r <->
  exists d v, nth_error s i = Some (d, v) /\
              r = make_row vals w ((a + i)%nat, (d, v)).
Proof.
  unfold rows_from. revert a i.
  induction s as [|[d v] s IH]; intros a i.
  - destruct i; simpl; split; [discriminate | intros (? & ? & ? & _); discriminate
                              | discriminate | intros (? & ? & ? & _); discriminate].
  - destruct i as [|i]; simpl.
    + rewrite Nat.add_0_r. split.
      * intros [= <-]. exists d, v. auto.
      * intros (d' & v' & [= <- <-] & ->). reflexivity.
    + rewrite IH. replace (S a + i)%nat with (a + S i)%nat by lia. reflexivity.
Qed.

Lemma rows_nth (s : series) (w i : nat) (d : Z) (v : Q) (m dev : fl) :
  nth_error (rows s w) i = Some (d, (v, m, dev)) <->
  nth_error s i = Some (d, v) /\
  m = window_mean (values s) w i /\
  dev = abs (div (sub (Fin v) m) m).
Proof.
  unfold rows. rewrite rows_from_nth. unfold make_row; simpl. split.
  - intros (d' & v' & Hn & [= -> -> -> ->]). auto.
  - intros (Hn & -> & ->). exists d, v. auto.
Qed.

Lemma filter_label_map {A B} (g : A -> Z * B) (h : A -> Z) (d : Z)
  (l : list A) :
  (forall r, fst (g r) = h r) ->
  filter (fun p => Z.eqb (fst p) d) (map g l)
  = map g (filter (fun r => Z.eqb (h r) d) l).
Proof.
  intros Hg. induction l as [|r l IH]; [reflexivity|].
  simpl. rewrite Hg. destruct (Z.eqb (h r) d); simpl; rewrite IH; reflexivity.
Qed.

Lemma loc_map {A B} (g : A -> Z * B) (h : A -> Z) (d : Z) (l : list A) :
  (forall r, fst (g r) = h r) ->
  loc (map g l) d =
  match filter (fun r => Z.eqb (h r) d) l with
  | [] => Raise (KeyError "label")
  | [r] => Ok (Scalar (snd (g r)))
  | rs => Ok (SubSeries (values (map g rs)))
  end.
Proof.
  intros Hg. unfold loc. rewrite (filter_label_map g h d l Hg).
  destruct (filter (fun r => Z.eqb (h r) d) l) as [|r [|r' rs]];
    try reflexivity.
  - simpl. destruct (g r). reflexivity.
  - cbn [map]. destruct (g r), (g r'). reflexivity.
Qed.

Section RollingLoop.
Variable R : list row.

Let by_label (d : Z) : list row := filter (fun r : row => Z.eqb (fst r) d) R.

Lemma loop_step_unique (r : row) (rest : list Z) :
  by_label (fst r) = [r] ->
  rolling_loop (map row_value R) (map row_mean R) (map row_dev R)
    (fst r :: rest)
  = more <- rolling_loop (map row_value R) (map row_mean R) (map row_dev R)
              rest ;;
    Ok (flag_row r ++ more).
Proof.
  intros Hu. cbn [rolling_loop].
  rewrite (loc_map row_dev fst (fst r) R (fun _ => eq_refl)).
  rewrite (loc_map row_value fst (fst r) R (fun _ => eq_refl)).
  rewrite (loc_map row_mean fst (fst r) R (fun _ => eq_refl)).
  fold (by_label (fst r)). rewrite Hu.
  destruct r as [d [[v m] dev]]. cbn.
  destruct dev as [b| | |]; try reflexivity.
  destruct (Qltb (1 # 2) b); reflexivity.
Qed.

Lemma loop_step_duplicate (d : Z) (rest : list Z) (r1 r2 : row)
  (rs : list row) :
  by_label d = r1 :: r2 :: rs ->
  exists e,
    rolling_loop (map row_value R) (map row_mean R) (map row_dev R) (d :: rest)
    = Raise e.
Proof.
  intros Hd. cbn [rolling_loop].
  rewrite (loc_map row_dev fst d R (fun _ => eq_refl)).
  fold (by_label d). rewrite Hd. cbn. eexists; reflexivity.
Qed.

Lemma by_label_self (r : row) : In r R -> In r (by_label (fst r)).
Proof.
  intros H. apply filter_In. split; [exact H | apply Z.eqb_refl].
Qed.

Lemma rolling_loop_total (rs : list row) :
  Forall (fun r => by_label (fst r) = [r]) rs ->
  rolling_loop (map row_value R) (map row_mean R) (map row_dev R)
    (map fst rs)
  = Ok (flat_map flag_row rs).
Proof.
  induction 1 as [|r rs Hr _ IH]; [reflexivity|].
  cbn [map flat_map]. rewrite (@loop_step_unique r (map fst rs) Hr), IH.
  reflexivity.
Qed.

Lemma rolling_loop_sound (rs : list row) (out : list entry) :
  incl rs R ->
  rolling_loop (map row_value R) (map row_mean R) (map row_dev R)
    (map fst rs) = Ok out ->
  Forall (fun r => by_label (fst r) = [r]) rs.
Proof.
  revert out. induction rs as [|r rs IH]; intros out Hin Hrun; [constructor|].
  assert (Hr : In r R) by (apply Hin; left; reflexivity).
  assert (Hrs : incl rs R) by (intros x Hx; apply Hin; right; exact Hx).
  pose proof (@by_label_self r Hr) as Hself.
  assert (Hu : by_label (fst r) = [r]).
  { destruct (by_label (fst r)) as [|r1 [|r2 l]] eqn:E.
    - destruct Hself.
    - destruct Hself as [->|[]]. reflexivity.
    - cbn [map] in Hrun.
      destruct (@loop_step_duplicate (fst r) (map fst rs) r1 r2 l E) as (e & He).
      rewrite He in Hrun. discriminate. }
  constructor; [exact Hu|].
  cbn [map] in Hrun. rewrite (@loop_step_unique r (map fst rs) Hu) in Hrun.
  destruct (rolling_loop _ _ _ (map fst rs)) as [more|e] eqn:E;
    [|discriminate].
  eapply IH; [exact Hrs | reflexivity].
Qed.

End RollingLoop.

Lemma In_skipn_In {A} (n : nat) (l : list A) (x : A) :
  In x (skipn n l) -> In x l.
Proof.
  revert l. induction n as [|n IH]; intros [|y l]; simpl; auto.
Qed.

Lemma rolling_unfold (s : series) (w : nat) :
  (w <= length s)%nat ->
  rolling_average_deviation s w
  = rolling_loop (map row_value (rows s w)) (map row_mean (rows s w))
      (map row_dev (rows s w)) (map fst (skipn w (rows s w))).
Proof.
  intros Hw. unfold rolling_average_deviation.
  destruct (Nat.ltb_spec (length s) w); [lia|].
  unfold rolling_mean, rows.
  rewrite rows_from_mean, rows_from_dev, rows_from_value.
  unfold index. rewrite <- skipn_map, map_map. reflexivity.
Qed.

Lemma rolling_ok_iff (s : series) (w : nat) :
  (w <= length s)%nat ->
  (exists out, rolling_average_deviation s w = Ok out) <->
  tail_labels_unique s w.
Proof.
  intros Hw. rewrite (rolling_unfold s w Hw). split.
  - intros (out & Hrun). eapply rolling_loop_sound; [|exact Hrun].
    intros x Hx. eapply In_skipn_In, Hx.
  - intros H. eexists. apply (@rolling_loop_total (rows s w) _ H).
Qed.

Lemma rolling_result (s : series) (w : nat) (out : list entry) :
  rolling_average_deviation s w = Ok out ->
  out = flat_map flag_row (skipn w (rows s w)).
Proof.
  intros Hrun.
  destruct (Nat.le_gt_cases w (length s)) as [Hw|Hw].
  - assert (Hu : tail_labels_unique s w)
      by (apply (rolling_ok_iff s w Hw); eauto).
    rewrite (rolling_unfold s w Hw) in Hrun.
    rewrite (@rolling_loop_total (rows s w) _ Hu) in Hrun.
    congruence.
  - rewrite skipn_all2 by (rewrite rows_length; lia).
    unfold rolling_average_deviation in Hrun.
    destruct (Nat.ltb_spec (length s) w); [|lia].
    simpl. congruence.
Qed.

Lemma filter_singleton_position {A} (p : A -> bool) (l : list A) (r a b : A)
  (i j : nat) :
  filter p l = [r] ->
  nth_error l i = Some a -> p a = true ->
  nth_error l j = Some b -> p b = true ->
  i = j.
Proof.
  revert i j. induction l as [|x l IH]; intros i j Hf Hi Ha Hj Hb.
  - destruct i; discriminate.
  - simpl in Hf. destruct (p x) eqn:Hx.
    + injection Hf as -> Hnil.
      assert (Hnone : forall k c, nth_error l k = Some c -> p c = true -> False).
      { intros k c Hk Hc.
        assert (Hin : In c (filter p l))
          by (apply filter_In; split; [eapply nth_error_In, Hk | exact Hc]).
        rewrite Hnil in Hin. destruct Hin. }
      destruct i as [|i], j as [|j]; simpl in Hi, Hj; try reflexivity.
      * exfalso. eapply Hnone; eassumption.
      * exfalso. eapply Hnone; eassumption.
      * exfalso. eapply Hnone; [exact Hi | exact Ha].
    + destruct i as [|i]; simpl in Hi; [congruence|].
      destruct j as [|j]; simpl in Hj; [congruence|].
      f_equal. eapply IH; eassumption.
Qed.

Lemma In_skipn_nth {A} (n : nat) (l : list A) (x : A) :
  In x (skipn n l) <-> exists i, (n <= i)%nat /\ nth_error l i = Some x.
Proof.
  split.
  - intros H. apply In_nth_error in H as (k & Hk).
    exists (n + k)%nat. split; [lia|].
    rewrite nth_error_skipn in Hk. exact Hk.
  - intros (i & Hi & Hn). apply (nth_error_In _ (i - n)).
    rewrite nth_error_skipn. replace (n + (i - n))%nat with i by lia. exact Hn.
Qed.

Lemma flag_row_In (r : row) (e : entry) :
  In e (flag_row r) <->
  e = RollEntry (fst r) (fst (fst (snd r))) (snd (fst (snd r))) (snd (snd r))
  /\ gtb (snd (snd r)) (Fin (1 # 2)) = true.
Proof.
  destruct r as [d [[v m] dev]]. cbn [flag_row fst snd].
  destruct (gtb dev (Fin (1 # 2))); simpl; intuition congruence.
Qed.

Lemma rows_index (s : series) (w : nat) : map fst (rows s w) = index s.
Proof.
  unfold index. rewrite <- (rows_from_value (values s) w 0 s) at 2.
  rewrite map_map. reflexivity.
Qed.

Lemma NoDup_filter_label (l : list row) (r : row) :
  NoDup (map fst l) -> In r l ->
  filter (fun r' : row => Z.eqb (fst r') (fst r)) l = [r].
Proof.
  induction l as [|x l IH]; intros Hnd Hin; [destruct Hin|].
  simpl in Hnd. inversion Hnd as [|? ? Hx Hl]; subst.
  assert (Hnone : forall y : row, ~ In (fst y) (map fst l) ->
            filter (fun r' : row => Z.eqb (fst r') (fst y)) l = []).
  { intros y Hy. clear IH Hnd Hin Hl.
    induction l as [|z l IHl]; [reflexivity|]. simpl.
    destruct (Z.eqb_spec (fst z) (fst y)) as [E|_].
    - exfalso. apply Hy. left. exact E.
    - apply IHl; intros H; [apply Hx | apply Hy]; right; exact H. }
  simpl. destruct Hin as [->|Hin].
  - rewrite Z.eqb_refl, (Hnone r Hx). reflexivity.
  - destruct (Z.eqb_spec (fst x) (fst r)) as [E|_].
    + exfalso. apply Hx. rewrite E. apply in_map, Hin.
    + apply IH; assumption.
Qed.

(** With pairwise distinct labels the detector always returns. *)
Lemma rolling_total (s : series) (w : nat) :
  NoDup (index s) -> exists out, rolling_average_deviation s w = Ok out.
Proof.
  intros Hnd. destruct (Nat.le_gt_cases w (length s)) as [Hw|Hw].
  - apply (rolling_ok_iff s w Hw). unfold tail_labels_unique.
    apply Forall_forall. intros r Hr.
    apply NoDup_filter_label; [rewrite rows_index; exact Hnd|].
    eapply In_skipn_In, Hr.
  - exists []. unfold rolling_average_deviation.
    destruct (Nat.ltb_spec (length s) w); [reflexivity | lia].
Qed.

(** Each finding of a successful run sits at one position of the series,
    not before [window], and records that position's statistics. *)
Lemma rolling_entry_position (s : series) (w : nat) (out : list entry)
  (e : entry) (i : nat) (d : Z) (v : Q) :
  rolling_average_deviation s w = Ok out ->
  In e out -> entry_date e = d -> nth_error s i = Some (d, v) ->
  (w <= i)%nat /\
  e = RollEntry d v (window_mean (values s) w i)
        (ratio v (window_mean (values s) w i)) /\
  gtb (ratio v (window_mean (values s) w i)) (Fin (1 # 2)) = true.
Proof.
  intros Hrun Hin Hd Hi.
  pose proof (rolling_result _ _ _ Hrun) as ->.
  assert (Hw : (w <= length s)%nat).
  { destruct (Nat.le_gt_cases w (length s)); [assumption|].
    rewrite skipn_all2 in Hin by (rewrite rows_length; lia). destruct Hin. }
  assert (Hu : tail_labels_unique s w)
    by (apply (rolling_ok_iff s w Hw); eauto).
  apply in_flat_map in Hin as (r & Hr & He).
  unfold tail_labels_unique in Hu. rewrite Forall_forall in Hu.
  specialize (Hu r Hr).
  apply In_skipn_nth in Hr as (j & Hj & Hnj).
  apply flag_row_In in He as (-> & Hgt). simpl in Hd.
  set (m := window_mean (values s) w i).
  assert (Hrow : nth_error (rows s w) i = Some (d, (v, m, ratio v m))).
  { apply rows_nth. auto. }
  assert (i = j).
  { eapply (filter_singleton_position _ _ _ _ _ _ _ Hu Hrow); [|exact Hnj|].
    - simpl. rewrite Hd. apply Z.eqb_refl.
    - apply Z.eqb_refl. }
  subst j. rewrite Hrow in Hnj. injection Hnj as <-.
  cbn [fst snd] in *. auto.
Qed.

(** A position from [window] on whose ratio exceeds one half is reported. *)
Lemma rolling_position_flagged (s : series) (w : nat) (out : list entry)
  (i : nat) (d : Z) (v : Q) :
  rolling_average_deviation s w = Ok out ->
  (w <= i)%nat -> nth_error s i = Some (d, v) ->
  gtb (ratio v (window_mean (values s) w i)) (Fin (1 # 2)) = true ->
  In (RollEntry d v (window_mean (values s) w i)
        (ratio v (window_mean (values s) w i))) out.
Proof.
  intros Hrun Hw Hi Hgt.
  pose proof (rolling_result _ _ _ Hrun) as ->.
  set (m := window_mean (values s) w i) in *.
  apply in_flat_map. exists (d, (v, m, ratio v m)). split.
  - apply In_skipn_nth. exists i. split; [exact Hw|]. apply rows_nth. auto.
  - apply flag_row_In. auto.
Qed.




(** ** Series no longer than the window *)

(** C10. A series whose length is exactly the window passes the length
    guard and still yields no finding, because the first [window] positions
    are skipped; whenever the detector reports anything the series has at
    least [window + 1] points. *)
Theorem rolling_needs_more_than_a_window (s : series) (w : nat) :
  (length s = w -> rolling_average_deviation s w = Ok []) /\
  (forall out, rolling_average_deviation s w = Ok out -> out <> [] ->
               (w + 1 <= length s)%nat).
Proof.
  split.
  - intros Hlen. rewrite rolling_unfold by lia.
    rewrite skipn_all2 by (rewrite rows_length; lia). reflexivity.
  - intros out Hrun Hne.
    destruct (Nat.le_gt_cases (w + 1) (length s)) as [|Hshort]; [assumption|].
    exfalso. apply Hne. rewrite (rolling_result _ _ _ Hrun).
    rewrite skipn_all2 by (rewrite rows_length; lia). reflexivity.
Qed.

Lemma rolling_needs_more_than_a_window_witness :
  rolling_average_deviation full_window_series 2 = Ok [] /\
  (2 + 1 <= length step_series)%nat.
Proof.
  split.
  - apply (proj1 (rolling_needs_more_than_a_window full_window_series 2)).
    reflexivity.
  - apply (proj2 (rolling_needs_more_than_a_window step_series 2)
             [RollEntry 2 3 (Fin (13 # 2)) (Fin (7 # 13))]).
    + vm_compute. reflexivity.
    + discriminate.
Defined.

(** ** What the rolling detector flags *)




(** ** A rolling mean that is exactly zero *)

Lemma ratio_zero_mean (v m : Q) :
  m == 0 -> ratio v (Fin m) = if Qzero v then NaN else PInf.
Proof.
  intros Hm. unfold ratio. cbn [sub div].
  replace (Qzero m) with true by (symmetry; apply Qzero_true, Hm).
  assert (Hz : Qzero (Qred (v - m)) = Qzero v).
  { destruct (Qzero v) eqn:E.
    - apply Qzero_true. apply Qzero_true in E.
      rewrite Qred_correct, E, Hm. ring.
    - apply Qzero_false. apply Qzero_false in E. intros H. apply E.
      rewrite Qred_correct in H. rewrite Hm in H. lra. }
  rewrite Hz. destruct (Qzero v); [reflexivity|].
  destruct (Qltb 0 (Qred (v - m))); reflexivity.
Qed.

Lemma In_firstn_In {A} (n : nat) (l : list A) (x : A) :
  In x (firstn n l) -> In x l.
Proof.
  revert l. induction n as [|n IH]; intros l H.
  - destruct H.
  - destruct l as [|y l]; [destruct H|].
    destruct H as [H|H]; [left; exact H | right; apply IH, H].
Qed.

(** In a series of non-negative values a zero rolling mean forces the
    current value, which is part of the window, to be zero. *)
Lemma zero_mean_zero_value (vals : list Q) (w i : nat) (v m : Q) :
  Forall (fun x => 0 <= x) vals ->
  nth_error vals i = Some v ->
  window_mean vals w i = Fin m -> m == 0 -> v == 0.
Proof.
  intros Hpos Hv Hm Hm0. unfold window_mean in Hm.
  destruct (Nat.ltb_spec (i + 1) w) as [|Hw]; [discriminate|].
  set (win := firstn w (skipn (i + 1 - w) vals)) in *.
  assert (Hne : win <> []) by (intros E; rewrite E in Hm; discriminate).
  destruct (mean_Fin _ Hne) as (m' & Hm' & Hmv).
  rewrite Hm' in Hm. injection Hm as ->.
  assert (Hlen : 0 < of_nat (length win)).
  { apply of_nat_pos. destruct win; simpl; [congruence | lia]. }
  assert (Hsum : Qsum win == 0).
  { assert (Qsum win == (Qsum win / of_nat (length win)) * of_nat (length win))
      as -> by (field; lra).
    rewrite <- Hmv, Hm0. ring. }
  assert (Hwin : Forall (fun x => 0 <= x) win).
  { apply Forall_forall. intros x Hx. rewrite Forall_forall in Hpos.
    apply Hpos. eapply In_skipn_In, In_firstn_In, Hx. }
  pose proof (Qsum_nonneg_zero _ Hwin Hsum) as Hall.
  rewrite Forall_forall in Hall. apply Hall.
  assert (Hw1 : (1 <= w)%nat).
  { destruct w; [|lia]. exfalso. apply Hne. reflexivity. }
  apply (nth_error_In _ (w - 1)). unfold win.
  rewrite nth_error_firstn.
  destruct (Nat.ltb_spec (w - 1) w); [|lia].
  rewrite nth_error_skipn. replace (i + 1 - w + (w - 1))%nat with i by lia.
  exact Hv.
Qed.

(** C4, as the code has it.  The detector has no guard for a zero rolling
    mean: the ratio is then NaN when the value is zero too, and +inf
    otherwise.  So a position (from [window] on) whose rolling mean is zero
    is left out exactly when its value is zero, and is otherwise reported
    with an infinite deviation; in a series of non-negative values it is
    always left out. *)
Theorem zero_mean_flagged_iff_value_nonzero
  (s : series) (w : nat) (out : list entry) (i : nat) (d : Z) (v m : Q) :
  rolling_average_deviation s w = Ok out ->
  nth_error s i = Some (d, v) -> (w <= i)%nat ->
  window_mean (values s) w i = Fin m -> m == 0 ->
  (flagged_at out d <-> ~ v == 0) /\
  (forall e, In e out -> entry_date e = d -> e = RollEntry d v (Fin m) PInf) /\
  (Forall (fun x => 0 <= x) (values s) -> ~ flagged_at out d).
Proof.
  intros Hrun Hi Hw Hm Hm0.
  pose proof (ratio_zero_mean v m Hm0) as Hr.
  assert (Hflag : flagged_at out d <-> ~ v == 0).
  { split.
    - intros (e & He & Hd) Hv.
      destruct (rolling_entry_position _ _ _ _ _ _ _ Hrun He Hd Hi)
        as (_ & _ & Hgt).
      rewrite Hm, Hr in Hgt.
      replace (Qzero v) with true in Hgt by (symmetry; apply Qzero_true, Hv).
      discriminate.
    - intros Hv.
      exists (RollEntry d v (window_mean (values s) w i)
                (ratio v (window_mean (values s) w i))).
      split; [|reflexivity].
      apply rolling_position_flagged; try assumption.
      rewrite Hm, Hr.
      replace (Qzero v) with false by (symmetry; apply Qzero_false, Hv).
      reflexivity. }
  split; [exact Hflag|]. split.
  - intros e He Hd.
    destruct (rolling_entry_position _ _ _ _ _ _ _ Hrun He Hd Hi)
      as (_ & -> & Hgt).
    rewrite Hm, Hr in *. destruct (Qzero v); [discriminate | reflexivity].
  - intros Hpos Hf. apply Hflag in Hf. apply Hf.
    apply (zero_mean_zero_value (values s) w i v m Hpos); try assumption.
    unfold values. rewrite nth_error_map, Hi. reflexivity.
Qed.

Lemma zero_mean_flagged_iff_value_nonzero_witness :
  (flagged_at [RollEntry 2 5 (Fin 0) PInf] 2 <-> ~ 5 == 0) /\
  ~ flagged_at [] 3.
Proof.
  split.
  - apply (zero_mean_flagged_iff_value_nonzero cancelling_series 2
             [RollEntry 2 5 (Fin 0) PInf] 2 2 5 0);
      [vm_compute; reflexivity | reflexivity | lia | reflexivity | reflexivity].
  - apply (zero_mean_flagged_iff_value_nonzero idle_series 2 [] 3 3 0 0);
      [vm_compute; reflexivity | reflexivity | lia | reflexivity | reflexivity|].
    repeat constructor; discriminate.
Defined.

(** C4, as stated, fails: in -5, 5 (window 2) the rolling mean at the last
    position is exactly zero and that position is reported, with deviation
    +inf. *)
Lemma zero_mean_counterexample :
  ~ zero_mean_never_flagged cancelling_series 2.
Proof.
  intros H.
  apply (H [RollEntry 2 5 (Fin 0) PInf] eq_refl 2%nat 2%Z 5 0
           eq_refl eq_refl (Qeq_refl 0)).
  eexists. split; [left; reflexivity | reflexivity].
Qed.

(** ** Dictionaries *)

Section DictFacts.
Variables (K V : Type) (eqb : K -> K -> bool).
Hypothesis eqb_spec : forall a b, eqb a b = true <-> a = b.

Lemma eqb_refl_true (k : K) : eqb k k = true.
Proof. apply eqb_spec. reflexivity. Qed.

Lemma dict_get_set (k k' : K) (v : V) (d : dict K V) :
  dict_get eqb k (dict_set eqb k' v d)
  = if eqb k k' then Some v else dict_get eqb k d.
Proof.
  induction d as [|[k0 v0] d IH]; simpl.
  - destruct (eqb k k'); reflexivity.
  - destruct (eqb k' k0) eqn:E0; simpl.
    + apply eqb_spec in E0. subst k0.
      destruct (eqb k k'); reflexivity.
    + destruct (eqb k k0) eqn:E1.
      * destruct (eqb k k') eqn:E2; [|reflexivity].
        apply eqb_spec in E1, E2. subst.
        rewrite eqb_refl_true in E0. discriminate.
      * exact IH.
Qed.

Lemma dict_get_modify (k k' : K) (f : V -> V) (d : dict K V) :
  dict_get eqb k (dict_modify eqb k' f d)
  = if eqb k k' then option_map f (dict_get eqb k d) else dict_get eqb k d.
Proof.
  induction d as [|[k0 v0] d IH]; simpl.
  - destruct (eqb k k'); reflexivity.
  - destruct (eqb k' k0) eqn:E0; simpl.
    + apply eqb_spec in E0. subst k0.
      destruct (eqb k k'); reflexivity.
    + destruct (eqb k k0) eqn:E1.
      * destruct (eqb k k') eqn:E2; [|reflexivity].
        apply eqb_spec in E1, E2. subst.
        rewrite eqb_refl_true in E0. discriminate.
      * exact IH.
Qed.

Lemma dict_get_In (k : K) (v : V) (d : dict K V) :
  dict_get eqb k d = Some v -> In (k, v) d.
Proof.
  induction d as [|[k0 v0] d IH]; simpl; [discriminate|].
  destruct (eqb k k0) eqn:E.
  - apply eqb_spec in E. intros [= ->]. left. congruence.
  - intros H. right. apply IH, H.
Qed.

Lemma dict_In_get (k : K) (v : V) (d : dict K V) :
  NoDup (map fst d) -> In (k, v) d -> dict_get eqb k d = Some v.
Proof.
  induction d as [|[k0 v0] d IH]; simpl; intros Hnd Hin; [destruct Hin|].
  inversion Hnd as [|? ? Hk0 Hd]; subst.
  destruct Hin as [[= -> ->]|Hin].
  - rewrite eqb_refl_true. reflexivity.
  - destruct (eqb k k0) eqn:E.
    + apply eqb_spec in E. subst k0. exfalso. apply Hk0.
      change k with (fst (k, v)). apply in_map, Hin.
    + apply IH; assumption.
Qed.

Lemma dict_keys_modify (k : K) (f : V -> V) (d : dict K V) :
  map fst (dict_modify eqb k f d) = map fst d.
Proof.
  induction d as [|[k0 v0] d IH]; simpl; [reflexivity|].
  destruct (eqb k k0); simpl; [reflexivity | rewrite IH; reflexivity].
Qed.

Lemma dict_keys_set_fresh (k : K) (v : V) (d : dict K V) :
  dict_mem eqb k d = false ->
  map fst (dict_set eqb k v d) = map fst d ++ [k].
Proof.
  unfold dict_mem.
  induction d as [|[k0 v0] d IH]; simpl; [reflexivity|].
  destruct (eqb k k0); [discriminate|]. intros H. simpl. rewrite IH; auto.
Qed.

Lemma dict_mem_false_keys (k : K) (d : dict K V) :
  dict_mem eqb k d = false -> ~ In k (map fst d).
Proof.
  unfold dict_mem.
  induction d as [|[k0 v0] d IH]; simpl; intros H; [tauto|].
  destruct (eqb k k0) eqn:E; [discriminate|].
  intros [->|Hin]; [rewrite eqb_refl_true in E; discriminate|].
  exact (IH H Hin).
Qed.

End DictFacts.

Lemma method_eqb_spec (a b : method) : method_eqb a b = true <-> a = b.
Proof. destruct a, b; simpl; split; congruence. Qed.

Lemma Z_eqb_spec (a b : Z) : Z.eqb a b = true <-> a = b.
Proof. apply Z.eqb_eq. Qed.

(** ** The aggregation step *)

Lemma add_finding_get (F : dict Z candidate) (key d : Z) (e : entry) :
  dict_get Z.eqb d (add_finding F key e)
  = if Z.eqb d key
    then Some (record_finding e
                 match dict_get Z.eqb key F with
                 | Some f => f
                 | None => fresh_candidate e
                 end)
    else dict_get Z.eqb d F.
Proof.
  unfold add_finding. rewrite (dict_get_modify _ _ Z.eqb Z_eqb_spec).
  destruct (Z.eqb_spec d key) as [->|Hne].
  - unfold dict_mem. destruct (dict_get Z.eqb key F) as [f|] eqn:E.
    + rewrite E. reflexivity.
    + rewrite (dict_get_set _ _ Z.eqb Z_eqb_spec), Z.eqb_refl. reflexivity.
  - destruct (dict_mem Z.eqb key F); [reflexivity|].
    rewrite (dict_get_set _ _ Z.eqb Z_eqb_spec).
    destruct (Z.eqb_spec d key); [contradiction | reflexivity].
Qed.

Lemma add_finding_keys (F : dict Z candidate) (key : Z) (e : entry) :
  NoDup (map fst F) -> NoDup (map fst (add_finding F key e)).
Proof.
  intros Hnd. unfold add_finding. rewrite dict_keys_modify.
  destruct (dict_mem Z.eqb key F) eqn:E; [exact Hnd|].
  rewrite (dict_keys_set_fresh _ _ Z.eqb) by exact E.
  apply NoDup_app; [exact Hnd | repeat constructor; simpl; tauto|].
  intros x Hx [<-|[]].
  exact (dict_mem_false_keys _ _ Z.eqb Z_eqb_spec _ _ E Hx).
Qed.

Lemma add_findings_app (F : dict Z candidate) (l l' : list entry) :
  add_findings F (l ++ l') = add_findings (add_findings F l) l'.
Proof. apply fold_left_app. Qed.

Lemma add_findings_keys (l : list entry) (F : dict Z candidate) :
  NoDup (map fst F) -> NoDup (map fst (add_findings F l)).
Proof.
  revert F. induction l as [|e l IH]; intros F Hnd; [exact Hnd|].
  simpl. apply IH, add_finding_keys, Hnd.
Qed.

Lemma collect_findings_eq (zs iqs rs : list entry) :
  collect_findings zs iqs rs = add_findings [] (zs ++ iqs ++ rs).
Proof.
  unfold collect_findings. rewrite !add_findings_app. reflexivity.
Qed.

Lemma findings_on_snoc (d : Z) (l : list entry) (e : entry) :
  findings_on d (l ++ [e])
  = findings_on d l ++ (if on_date d e then [e] else []).
Proof.
  unfold findings_on. rewrite filter_app. simpl.
  destruct (on_date d e); reflexivity.
Qed.

Lemma latest_snoc (d : Z) (m : method) (l : list entry) (e : entry) :
  latest d m (l ++ [e])
  = if on_date d e && method_eqb m (entry_method e) then Some e
    else latest d m l.
Proof.
  unfold latest. rewrite rev_app_distr. reflexivity.
Qed.

Lemma latest_none (d : Z) (m : method) (l : list entry) :
  findings_on d l = [] -> latest d m l = None.
Proof.
  intros H. unfold latest.
  destruct (find _ (rev l)) as [e|] eqn:E; [|reflexivity].
  apply find_some in E as [Hin He]. apply andb_true_iff in He as [He _].
  assert (In e (findings_on d l)).
  { apply filter_In. split; [apply in_rev, Hin | exact He]. }
  rewrite H in *. contradiction.
Qed.

Lemma latest_some (d : Z) (m : method) (l : list entry) (e : entry) :
  latest d m l = Some e -> In e l /\ entry_date e = d /\ entry_method e = m.
Proof.
  unfold latest. intros H. apply find_some in H as [Hin He].
  apply andb_true_iff in He as [Hd Hm].
  split; [apply in_rev, Hin|]. split.
  - apply Z.eqb_eq, Hd.
  - symmetry. apply method_eqb_spec, Hm.
Qed.

Lemma add_findings_get (l : list entry) (d : Z) :
  candidate_of l d (dict_get Z.eqb d (add_findings [] l)).
Proof.
  induction l as [|e l IH] using rev_ind; [reflexivity|].
  rewrite add_findings_app. cbn [add_findings fold_left].
  rewrite add_finding_get.
  destruct (Z.eqb_spec d (entry_date e)) as [->|Hne].
  - assert (Hon : on_date (entry_date e) e = true) by apply Z.eqb_refl.
    fold (add_findings [] l) in *.
    destruct (dict_get Z.eqb (entry_date e) (add_findings [] l)) as [f|];
      cbn [candidate_of] in *.
    + destruct IH as (Hd & Hv & Hm & Hdet).
      rewrite findings_on_snoc, Hon. repeat split.
      * exact Hd.
      * destruct (findings_on (entry_date e) l); [discriminate | exact Hv].
      * cbn [record_finding c_methods]. rewrite map_app, Hm. reflexivity.
      * intros m. cbn [record_finding c_details].
        rewrite (dict_get_set _ _ method_eqb method_eqb_spec), latest_snoc, Hon.
        rewrite Hdet. reflexivity.
    + rewrite findings_on_snoc, Hon, IH. repeat split.
      intros m. cbn [record_finding fresh_candidate c_details].
      rewrite (dict_get_set _ _ method_eqb method_eqb_spec), latest_snoc, Hon.
      rewrite (latest_none _ m _ IH). reflexivity.
  - assert (Hon : on_date d e = false).
    { unfold on_date. apply Z.eqb_neq. congruence. }
    fold (add_findings [] l).
    destruct (dict_get Z.eqb d (add_findings [] l)) as [f|];
      cbn [candidate_of] in *; rewrite findings_on_snoc, Hon, app_nil_r.
    + destruct IH as (Hd & Hv & Hm & Hdet). repeat split; try assumption.
      intros m. rewrite latest_snoc, Hon. apply Hdet.
    + exact IH.
Qed.

Lemma store_item (l : list entry) (k : Z) (f : candidate) :
  In (k, f) (add_findings [] l) -> candidate_of l k (Some f).
Proof.
  intros Hin.
  assert (Hget : dict_get Z.eqb k (add_findings [] l) = Some f).
  { apply (dict_In_get _ _ Z.eqb Z_eqb_spec); [|exact Hin].
    apply add_findings_keys. constructor. }
  rewrite <- Hget. apply add_findings_get.
Qed.

Lemma store_has (l : list entry) (d : Z) :
  findings_on d l <> [] ->
  exists f, In (d, f) (add_findings [] l) /\ candidate_of l d (Some f).
Proof.
  intros Hne. pose proof (add_findings_get l d) as H.
  destruct (dict_get Z.eqb d (add_findings [] l)) as [f|] eqn:E.
  - exists f. split; [|exact H].
    apply (dict_get_In _ _ Z.eqb Z_eqb_spec), E.
  - cbn [candidate_of] in H. contradiction.
Qed.

(** ** The cross-validation loop *)

Ltac case_ltb :=
  match goal with
  | |- context [ltb ?x ?y] => destruct (ltb x y); reflexivity
  | |- context [match ?m with Fin _ => _ | PInf => _ | NInf => _ | NaN => _ end] =>
      destruct m as [?b| | |]; cbn; try reflexivity;
      match goal with
      | |- context [Qltb ?u ?v] => destruct (Qltb u v); reflexivity
      end
  end.

Lemma validate_inv (series_mean : fl) (st di : option string)
  (f : candidate) (al : list alert) (a : alert) :
  validate series_mean st di f = Ok al -> In a al ->
  (2 <= length (c_methods f))%nat /\
  al = [a] /\
  a_date a = c_date f /\
  a_anomaly_value a = c_value f /\
  a_detection_methods a = c_methods f /\
  match dict_get method_eqb rolling_deviation (c_details f) with
  | Some e =>
      exists rm, entry_rolling_mean e = Ok rm /\
        a_anomaly_type a = if ltb (Fin (c_value f)) rm then drop else spike
  | None =>
      a_anomaly_type a
      = if ltb (Fin (c_value f)) series_mean then drop else spike
  end /\
  match dict_get method_eqb z_score (c_details f) with
  | Some e =>
      exists z, entry_z_score e = Ok z /\
        a_severity_score a = py_round (py_min (Fin 10) z) 2
  | None => a_severity_score a = Fin 5
  end.
Proof.
  unfold validate. intros Hv Hin.
  destruct (Nat.leb_spec 2 (length (c_methods f))) as [Hlen|Hlen];
    [|injection Hv as <-; destruct Hin].
  split; [exact Hlen|].
  destruct (dict_get method_eqb rolling_deviation (c_details f)) as [er|];
    [destruct (entry_rolling_mean er) as [rm|x] eqn:Erm; [|discriminate]|];
    (destruct (dict_get method_eqb z_score (c_details f)) as [ez|];
     [destruct (entry_z_score ez) as [z|x'] eqn:Ez; [|discriminate]|]);
    cbn [bind] in Hv; injection Hv as <-; destruct Hin as [<-|[]];
    cbn [a_date a_anomaly_value a_detection_methods a_anomaly_type
         a_severity_score];
    repeat split; eauto.
  - exists rm. split; [reflexivity|]. case_ltb.
  - exists rm. split; [reflexivity|]. case_ltb.
  - case_ltb.
  - case_ltb.
Qed.

Lemma validate_short (series_mean : fl) (st di : option string)
  (f : candidate) :
  (length (c_methods f) < 2)%nat -> validate series_mean st di f = Ok [].
Proof.
  intros H. unfold validate.
  destruct (Nat.leb_spec 2 (length (c_methods f))); [lia | reflexivity].
Qed.

(** A candidate whose details are filed under the right method names is
    validated without a lookup failure, and yields one alert as soon as its
    method list has two elements. *)
Lemma validate_total (series_mean : fl) (st di : option string)
  (f : candidate) :
  (forall m e, dict_get method_eqb m (c_details f) = Some e ->
               entry_method e = m) ->
  exists al, validate series_mean st di f = Ok al /\
    ((2 <= length (c_methods f))%nat -> exists a, al = [a]).
Proof.
  intros Hdet. unfold validate.
  destruct (Nat.leb_spec 2 (length (c_methods f))) as [Hlen|Hlen];
    [|exists []; split; [reflexivity | lia]].
  destruct (dict_get method_eqb rolling_deviation (c_details f)) as [er|] eqn:Er.
  - apply Hdet in Er. destruct er; try discriminate. cbn [entry_rolling_mean bind].
    destruct (dict_get method_eqb z_score (c_details f)) as [ez|] eqn:Ez.
    + apply Hdet in Ez. destruct ez; try discriminate.
      cbn [entry_z_score bind]. eexists. split; [reflexivity | eauto].
    + cbn [bind]. eexists. split; [reflexivity | eauto].
  - cbn [bind].
    destruct (dict_get method_eqb z_score (c_details f)) as [ez|] eqn:Ez.
    + apply Hdet in Ez. destruct ez; try discriminate.
      cbn [entry_z_score bind]. eexists. split; [reflexivity | eauto].
    + cbn [bind]. eexists. split; [reflexivity | eauto].
Qed.

Lemma validate_all_In (series_mean : fl) (st di : option string)
  (items : list (Z * candidate)) (alerts : list alert) (a : alert) :
  validate_all series_mean st di items = Ok alerts ->
  (In a alerts <->
   exists k f al, In (k, f) items /\
     validate series_mean st di f = Ok al /\ In a al).
Proof.
  revert alerts. induction items as [|[k f] items IH]; intros alerts Hrun.
  - injection Hrun as <-. split; [intros [] | intros (? & ? & ? & [] & _)].
  - cbn [validate_all] in Hrun.
    destruct (validate series_mean st di f) as [here|] eqn:Ef; [|discriminate].
    cbn [bind] in Hrun.
    destruct (validate_all series_mean st di items) as [more|] eqn:Em;
      [|discriminate].
    cbn [bind] in Hrun. injection Hrun as <-.
    rewrite in_app_iff, (IH more eq_refl). split.
    + intros [H|(k' & f' & al & Hin & Hv & Ha)].
      * exists k, f, here. split; [left; reflexivity | auto].
      * exists k', f', al. split; [right; exact Hin | auto].
    + intros (k' & f' & al & [[= <- <-]|Hin] & Hv & Ha).
      * left. congruence.
      * right. exists k', f', al. auto.
Qed.

Lemma validate_all_each (series_mean : fl) (st di : option string)
  (items : list (Z * candidate)) (alerts : list alert) :
  validate_all series_mean st di items = Ok alerts ->
  forall k f, In (k, f) items ->
  exists al, validate series_mean st di f = Ok al.
Proof.
  revert alerts. induction items as [|[k f] items IH]; intros alerts Hrun k' f' Hin.
  - destruct Hin.
  - cbn [validate_all] in Hrun.
    destruct (validate series_mean st di f) as [here|] eqn:Ef; [|discriminate].
    cbn [bind] in Hrun.
    destruct (validate_all series_mean st di items) as [more|] eqn:Em;
      [|discriminate].
    destruct Hin as [[= <- <-]|Hin]; [eauto|].
    eapply IH; [reflexivity | exact Hin].
Qed.

Lemma validate_all_total (series_mean : fl) (st di : option string)
  (items : list (Z * candidate)) :
  (forall k f, In (k, f) items ->
     exists al, validate series_mean st di f = Ok al) ->
  exists alerts, validate_all series_mean st di items = Ok alerts.
Proof.
  induction items as [|[k f] items IH]; intros H.
  - exists []. reflexivity.
  - destruct (H k f (or_introl eq_refl)) as (here & Hh).
    destruct IH as (more & Hm).
    { intros k' f' Hin. apply (H k' f'). right. exact Hin. }
    exists (here ++ more). cbn [validate_all]. rewrite Hh, Hm. reflexivity.
Qed.

(** ** What the detectors emit *)

Lemma z_score_entries (fsqrt : Q -> Q) (s : series) (t : Q) (e : entry) :
  In e (z_score_anomalies fsqrt s t) ->
  exists d v z, e = ZEntry d v z /\ In (d, v) s /\ gtb z (Fin t) = true.
Proof.
  unfold z_score_anomalies.
  destruct (length s <? 3)%nat; [intros []|].
  intros H. apply in_flat_map in H as ([[d v] z] & Hin & He).
  destruct (gtb z (Fin t)) eqn:E; [|destruct He].
  destruct He as [<-|[]]. exists d, v, z.
  split; [reflexivity|]. split; [|exact E].
  eapply in_combine_l, Hin.
Qed.

Lemma iqr_entries (s : series) (e : entry) :
  In e (iqr_outliers s) ->
  exists d v lo hi, e = IqrEntry d v lo hi /\ In (d, v) s.
Proof.
  unfold iqr_outliers.
  destruct (length s <? 5)%nat; [intros []|].
  intros H. apply in_flat_map in H as ([d v] & Hin & He).
  destruct (_ || _); [|destruct He].
  destruct He as [<-|[]]. eauto 6.
Qed.

Lemma rolling_entries (s : series) (w : nat) (out : list entry) (e : entry) :
  rolling_average_deviation s w = Ok out -> In e out ->
  exists d v m dev, e = RollEntry d v m dev /\ In (d, v) s.
Proof.
  intros Hrun Hin. rewrite (rolling_result _ _ _ Hrun) in Hin.
  apply in_flat_map in Hin as (r & Hr & He).
  apply flag_row_In in He as (-> & _).
  apply In_skipn_In in Hr. apply In_nth_error in Hr as (i & Hi).
  destruct r as [d [[v m] dev]]. apply rows_nth in Hi as (Hi & _).
  exists d, v, m, dev. split; [reflexivity|]. eapply nth_error_In, Hi.
Qed.

(** ** The report on one series *)

Section Analysis.
Variable fsqrt : Q -> Q.
Variables st di : option string.
Variable s : series.
Variable rs : list entry.
Hypothesis rolling_ok : rolling_average_deviation s 30 = Ok rs.

Let zs := z_score_anomalies fsqrt s 3.
Let iqs := iqr_outliers s.
Let every := zs ++ iqs ++ rs.

Lemma analyze_unfold :
  analyze fsqrt st di s
  = validate_all (mean (values s)) st di (add_findings [] every).
Proof.
  unfold analyze. rewrite rolling_ok. cbn [bind].
  rewrite collect_findings_eq. reflexivity.
Qed.

Lemma every_method (e : entry) :
  In e every ->
  match entry_method e with
  | z_score => In e zs
  | iqr => In e iqs
  | rolling_deviation => In e rs
  end.
Proof.
  unfold every. rewrite !in_app_iff. intros [H|[H|H]].
  - destruct (z_score_entries _ _ _ _ H) as (d & v & z & -> & _). exact H.
  - destruct (iqr_entries _ _ H) as (d & v & lo & hi & -> & _). exact H.
  - destruct (rolling_entries _ _ _ _ rolling_ok H)
      as (d & v & m & dev & -> & _). exact H.
Qed.

Lemma every_from_series (e : entry) :
  In e every -> In (entry_date e, entry_value e) s.
Proof.
  unfold every. rewrite !in_app_iff. intros [H|[H|H]].
  - destruct (z_score_entries _ _ _ _ H) as (d & v & z & -> & Hs & _).
    exact Hs.
  - destruct (iqr_entries _ _ H) as (d & v & lo & hi & -> & Hs). exact Hs.
  - destruct (rolling_entries _ _ _ _ rolling_ok H)
      as (d & v & m & dev & -> & Hs). exact Hs.
Qed.

(** The aggregation never fails on a lookup: the report is returned
    whenever the rolling detector returns. *)
Lemma analyze_returns : exists alerts, analyze fsqrt st di s = Ok alerts.
Proof.
  rewrite analyze_unfold. apply validate_all_total.
  intros k f Hin. apply store_item in Hin.
  destruct Hin as (_ & _ & _ & Hdet).
  destruct (validate_total (mean (values s)) st di f) as (al & Hal & _);
    [|eauto].
  intros m e He. rewrite Hdet in He.
  apply latest_some in He. tauto.
Qed.

Variable alerts : list alert.
Hypothesis analyze_ok : analyze fsqrt st di s = Ok alerts.

(** Each alert is the validation of the stored candidate of its date. *)
Lemma alert_candidate (a : alert) :
  In a alerts ->
  exists f, candidate_of every (a_date a) (Some f) /\
            validate (mean (values s)) st di f = Ok [a].
Proof.
  intros Hin. pose proof analyze_ok as Hrun. rewrite analyze_unfold in Hrun.
  apply (validate_all_In _ _ _ _ _ a Hrun) in Hin
    as (k & f & al & Hitem & Hv & Ha).
  destruct (validate_inv _ _ _ _ _ _ Hv Ha) as (_ & Hal & Hd & _). subst al.
  apply store_item in Hitem. exists f. split; [|exact Hv].
  assert (a_date a = k) as -> by (rewrite Hd; apply Hitem).
  exact Hitem.
Qed.

Lemma candidate_details_filed (f : candidate) (d : Z) :
  candidate_of every d (Some f) ->
  forall m e, dict_get method_eqb m (c_details f) = Some e ->
              entry_method e = m.
Proof.
  intros (_ & _ & _ & Hdet) m e He. rewrite Hdet in He.
  apply latest_some in He. tauto.
Qed.

Lemma alert_methods (a : alert) :
  In a alerts ->
  a_detection_methods a
  = map entry_method (findings_on (a_date a) every) /\
  (2 <= length (a_detection_methods a))%nat.
Proof.
  intros Hin. destruct (alert_candidate a Hin) as (f & Hc & Hv).
  destruct (validate_inv _ _ _ _ _ _ Hv (or_introl eq_refl))
    as (Hlen & _ & _ & _ & Hm & _).
  destruct Hc as (_ & _ & Hms & _).
  rewrite Hm. split; [exact Hms | exact Hlen].
Qed.

(** An alert is reported for a date exactly when the three result lists
    together hold at least two findings for it. *)
Lemma reported_iff (d : Z) :
  reported_at alerts d <-> (2 <= length (findings_on d every))%nat.
Proof.
  split.
  - intros (a & Hin & <-).
    destruct (alert_methods a Hin) as (Hm & Hlen).
    rewrite Hm, length_map in Hlen. exact Hlen.
  - intros Hlen.
    destruct (store_has every d) as (f & Hitem & Hc).
    { intros E. rewrite E in Hlen. simpl in Hlen. lia. }
    destruct (validate_total (mean (values s)) st di f
                (candidate_details_filed f d Hc)) as (al & Hal & Hone).
    destruct Hone as (a & ->).
    { destruct Hc as (_ & _ & -> & _). rewrite length_map. exact Hlen. }
    exists a. split.
    + pose proof analyze_ok as Hrun. rewrite analyze_unfold in Hrun.
      apply (validate_all_In _ _ _ _ _ a Hrun).
      exists d, f, [a]. split; [exact Hitem|]. split; [exact Hal|].
      left. reflexivity.
    + destruct (validate_inv _ _ _ _ _ _ Hal (or_introl eq_refl))
        as (_ & _ & Hd & _).
      rewrite Hd. apply Hc.
Qed.

End Analysis.

(** ** One finding per date and detector on distinct dates *)

Lemma flat_map_dates_NoDup {A} (f : A -> list entry) (g : A -> Z)
  (l : list A) :
  (forall x e, In e (f x) -> f x = [e] /\ entry_date e = g x) ->
  NoDup (map g l) -> NoDup (map entry_date (flat_map f l)).
Proof.
  intros Hf. induction l as [|x l IH]; intros Hnd; [constructor|].
  simpl in Hnd. inversion Hnd as [|? ? Hx Hl]; subst.
  simpl. rewrite map_app. destruct (f x) as [|e l'] eqn:E.
  - simpl. apply IH, Hl.
  - destruct (Hf x e) as (Hone & Hd); [rewrite E; left; reflexivity|].
    rewrite E in Hone. injection Hone as ->. simpl.
    constructor; [|apply IH, Hl].
    rewrite Hd. intros Hin. apply Hx.
    apply in_map_iff in Hin as (e' & He' & Hin').
    apply in_flat_map in Hin' as (y & Hy & Hey).
    apply Hf in Hey as (_ & Hdy). rewrite <- He', Hdy. apply in_map, Hy.
Qed.

Lemma combine_labels_NoDup {B} (s : series) (l : list B) :
  NoDup (index s) ->
  NoDup (map (fun p : Z * Q * B => fst (fst p)) (combine s l)).
Proof.
  revert l. induction s as [|x s IH]; intros l Hnd; [constructor|].
  destruct l as [|y l]; [constructor|].
  simpl in Hnd. inversion Hnd as [|? ? Hx Hs]; subst.
  simpl. constructor; [|apply IH, Hs].
  intros Hin. apply Hx.
  apply in_map_iff in Hin as ([p b] & <- & Hp).
  apply in_combine_l in Hp. simpl. apply in_map, Hp.
Qed.

Lemma z_dates_NoDup (fsqrt : Q -> Q) (s : series) (t : Q) :
  NoDup (index s) -> NoDup (map entry_date (z_score_anomalies fsqrt s t)).
Proof.
  intros Hnd. unfold z_score_anomalies.
  destruct (length s <? 3)%nat; [constructor|].
  apply (flat_map_dates_NoDup _ (fun p : Z * Q * fl => fst (fst p))).
  - intros [[d v] z] e He.
    destruct (gtb z (Fin t)); [|destruct He].
    destruct He as [<-|[]]. split; reflexivity.
  - apply combine_labels_NoDup, Hnd.
Qed.

Lemma iqr_dates_NoDup (s : series) :
  NoDup (index s) -> NoDup (map entry_date (iqr_outliers s)).
Proof.
  intros Hnd. unfold iqr_outliers.
  destruct (length s <? 5)%nat; [constructor|].
  apply (flat_map_dates_NoDup _ fst); [|exact Hnd].
  intros [d v] e He.
  destruct (_ || _); [|destruct He].
  destruct He as [<-|[]]. split; reflexivity.
Qed.

Lemma NoDup_skipn {A} (n : nat) (l : list A) : NoDup l -> NoDup (skipn n l).
Proof.
  revert l. induction n as [|n IH]; intros l H; [exact H|].
  destruct l as [|x l]; [constructor|].
  simpl. apply IH. inversion H; assumption.
Qed.

Lemma rolling_dates_NoDup (s : series) (w : nat) (out : list entry) :
  rolling_average_deviation s w = Ok out ->
  NoDup (index s) -> NoDup (map entry_date out).
Proof.
  intros Hrun Hnd. rewrite (rolling_result _ _ _ Hrun).
  apply (flat_map_dates_NoDup _ fst).
  - intros r e He. pose proof He as He'.
    apply flag_row_In in He' as (-> & Hgt).
    destruct r as [d [[v m] dev]]. cbn [flag_row fst snd] in *.
    rewrite Hgt. split; reflexivity.
  - rewrite <- skipn_map. apply NoDup_skipn. rewrite rows_index. exact Hnd.
Qed.

Lemma single_method_findings (l : list entry) (m : method) (d : Z) :
  (forall e, In e l -> entry_method e = m) ->
  NoDup (map entry_date l) ->
  map entry_method (findings_on d l)
  = if existsb (on_date d) l then [m] else [].
Proof.
  induction l as [|e l IH]; intros Hm Hnd; [reflexivity|].
  simpl in Hnd. inversion Hnd as [|? ? He Hl]; subst.
  assert (IH' := IH (fun x Hx => Hm x (or_intror Hx)) Hl).
  unfold findings_on in *. simpl.
  destruct (on_date d e) eqn:E; simpl; [|exact IH'].
  rewrite (Hm e (or_introl eq_refl)). f_equal.
  destruct (existsb (on_date d) l) eqn:Ex; [|exact IH'].
  exfalso. apply existsb_exists in Ex as (x & Hx & Hdx).
  apply He. unfold on_date in *. apply Z.eqb_eq in E, Hdx.
  rewrite E, <- Hdx. apply in_map, Hx.
Qed.

Lemma findings_on_app (d : Z) (l l' : list entry) :
  findings_on d (l ++ l') = findings_on d l ++ findings_on d l'.
Proof. apply filter_app. Qed.

Lemma methods_fired_NoDup (zs iqs rs : list entry) (d : Z) :
  NoDup (methods_fired zs iqs rs d).
Proof.
  unfold methods_fired.
  destruct (existsb _ zs), (existsb _ iqs), (existsb _ rs); simpl;
    repeat constructor; simpl; intuition discriminate.
Qed.

(** On pairwise distinct dates the method list of a date is the list of
    the methods that fired on it, each once. *)
Lemma findings_methods (fsqrt : Q -> Q) (s : series) (rs : list entry)
  (d : Z) :
  rolling_average_deviation s 30 = Ok rs ->
  NoDup (index s) ->
  map entry_method
    (findings_on d (z_score_anomalies fsqrt s 3 ++ iqr_outliers s ++ rs))
  = methods_fired (z_score_anomalies fsqrt s 3) (iqr_outliers s) rs d.
Proof.
  intros Hrun Hnd. unfold methods_fired.
  rewrite !findings_on_app, !map_app.
  rewrite (single_method_findings _ z_score d),
          (single_method_findings _ iqr d),
          (single_method_findings _ rolling_deviation d); try reflexivity.
  - intros e He.
    destruct (rolling_entries _ _ _ _ Hrun He) as (? & ? & ? & ? & -> & _).
    reflexivity.
  - eapply rolling_dates_NoDup; eassumption.
  - intros e He.
    destruct (iqr_entries _ _ He) as (? & ? & ? & ? & -> & _). reflexivity.
  - apply iqr_dates_NoDup, Hnd.
  - intros e He.
    destruct (z_score_entries _ _ _ _ He) as (? & ? & ? & -> & _).
    reflexivity.
  - apply z_dates_NoDup, Hnd.
Qed.

Lemma analyze_rolling (fsqrt : Q -> Q) (st di : option string) (s : series)
  (alerts : list alert) :
  analyze fsqrt st di s = Ok alerts ->
  exists rs, rolling_average_deviation s 30 = Ok rs.
Proof.
  unfold analyze.
  destruct (rolling_average_deviation s 30) as [rs|]; [eauto | discriminate].
Qed.

(** ** Validation threshold *)

(** Where C1 does hold.  On pairwise distinct dates the report is
    returned, an alert is produced for a date exactly when at least two
    distinct detection methods fired on it, and the alert lists exactly
    those methods, each once.  On every series, the method list of an alert
    has at least two elements. *)
Theorem validated_iff_two_methods_on_distinct_dates
  (fsqrt : Q -> Q) (st di : option string) (s : series) :
  (NoDup (index s) -> exists alerts, analyze fsqrt st di s = Ok alerts) /\
  (forall alerts rs,
     analyze fsqrt st di s = Ok alerts ->
     rolling_average_deviation s 30 = Ok rs ->
     (forall a, In a alerts -> (2 <= length (a_detection_methods a))%nat) /\
     (NoDup (index s) ->
      (forall d,
         reported_at alerts d <->
         (2 <= length (methods_fired (z_score_anomalies fsqrt s 3)
                         (iqr_outliers s) rs d))%nat) /\
      (forall a, In a alerts ->
         a_detection_methods a
         = methods_fired (z_score_anomalies fsqrt s 3) (iqr_outliers s) rs
             (a_date a) /\
         NoDup (a_detection_methods a)))).
Proof.
  split.
  - intros Hnd. destruct (rolling_total s 30 Hnd) as (rs & Hrs).
    apply (analyze_returns fsqrt st di s rs Hrs).
  - intros alerts rs Hrun Hrs. split.
    + intros a Ha.
      apply (alert_methods fsqrt st di s rs Hrs alerts Hrun a Ha).
    + intros Hnd. split.
      * intros d.
        rewrite (reported_iff fsqrt st di s rs Hrs alerts Hrun d).
        rewrite <- (findings_methods fsqrt s rs d Hrs Hnd), length_map.
        reflexivity.
      * intros a Ha.
        destruct (alert_methods fsqrt st di s rs Hrs alerts Hrun a Ha)
          as (Hm & _).
        rewrite Hm, (findings_methods fsqrt s rs _ Hrs Hnd).
        split; [reflexivity | apply methods_fired_NoDup].
Qed.

Lemma combine_index {B} (l : list Z) (l' : list B) :
  length l = length l' -> map fst (combine l l') = l.
Proof.
  revert l'. induction l as [|x l IH]; intros [|y l'] H; try discriminate.
  - reflexivity.
  - simpl. f_equal. apply IH. simpl in H. lia.
Qed.

Lemma days_from_NoDup (start : Z) (vals : list Q) :
  NoDup (index (days_from start vals)).
Proof.
  unfold index, days_from. rewrite combine_index by (rewrite length_map, length_seq; reflexivity).
  apply Injective_map_NoDup; [|apply seq_NoDup].
  intros i j H. lia.
Qed.

Lemma validated_iff_two_methods_on_distinct_dates_witness :
  exists alerts,
    analyze sqrt6 None None spike_series = Ok alerts /\
    (reported_at alerts 21 <->
     (2 <= length (methods_fired (z_score_anomalies sqrt6 spike_series 3)
                     (iqr_outliers spike_series) [] 21))%nat).
Proof.
  destruct (validated_iff_two_methods_on_distinct_dates
              sqrt6 None None spike_series) as [Htot Hspec].
  destruct (Htot (days_from_NoDup 0 _)) as (alerts & Hrun).
  exists alerts. split; [exact Hrun|].
  destruct (Hspec alerts [] Hrun eq_refl) as (_ & Hdistinct).
  apply (Hdistinct (days_from_NoDup 0 _)).
Defined.

(** The statement of C1 for every series fails when a date occurs twice: both
    points of the repeated date are IQR outliers, nothing else fires, and
    the alert is produced with the method list [iqr; iqr]. *)
Lemma two_methods_counterexample :
  ~ validated_iff_two_methods sqrt6 twin_series.
Proof.
  intros H.
  assert (E : analyze sqrt6 None None twin_series
              = Ok [ {| a_date := 8;
                        a_metric_name := "daily_enrollments";
                        a_anomaly_value := 100;
                        a_severity_score := Fin 5;
                        a_anomaly_type := spike;
                        a_detection_methods := [iqr; iqr];
                        a_district := None;
                        a_state := None |} ])
    by (vm_compute; reflexivity).
  specialize (H _ E [] eq_refl 8%Z). destruct H as [H _].
  assert (Hlen : (2 <= length
                         (methods_fired (z_score_anomalies sqrt6 twin_series 3)
                            (iqr_outliers twin_series) [] 8))%nat).
  { apply H. eexists. split; [left; reflexivity | reflexivity]. }
  vm_compute in Hlen. lia.
Qed.

(** ** Which finding the details hold *)

Lemma find_app {A} (p : A -> bool) (l l' : list A) :
  find p (l ++ l')
  = match find p l with Some x => Some x | None => find p l' end.
Proof.
  induction l as [|x l IH]; [reflexivity|].
  simpl. destruct (p x); [reflexivity | exact IH].
Qed.

Lemma latest_app (d : Z) (m : method) (l l' : list entry) :
  latest d m (l ++ l')
  = match latest d m l' with Some e => Some e | None => latest d m l end.
Proof.
  unfold latest. rewrite rev_app_distr. apply find_app.
Qed.

Lemma latest_other_method (d : Z) (m : method) (l : list entry) :
  (forall e, In e l -> entry_method e <> m) -> latest d m l = None.
Proof.
  intros H. destruct (latest d m l) as [e|] eqn:E; [|reflexivity].
  apply latest_some in E as (Hin & _ & Hm). exfalso. exact (H e Hin Hm).
Qed.

Lemma latest_exists (d : Z) (m : method) (l : list entry) (e : entry) :
  In e l -> entry_date e = d -> entry_method e = m ->
  exists e', latest d m l = Some e'.
Proof.
  intros Hin Hd Hm. destruct (latest d m l) as [e'|] eqn:E; [eauto|].
  exfalso. unfold latest in E.
  pose proof (find_none _ _ E e (proj1 (in_rev l e) Hin)) as Hf.
  cbv beta in Hf. unfold on_date in Hf.
  rewrite Hd, Hm, Z.eqb_refl in Hf.
  rewrite (proj2 (method_eqb_spec m m) eq_refl) in Hf. discriminate.
Qed.

Lemma rolling_unique (s : series) (w : nat) (out : list entry)
  (e e' : entry) :
  rolling_average_deviation s w = Ok out ->
  In e out -> In e' out -> entry_date e = entry_date e' -> e = e'.
Proof.
  intros Hrun He He' Hd.
  destruct (rolling_entries _ _ _ _ Hrun He) as (d & v & m & dev & -> & Hs).
  apply In_nth_error in Hs as (i & Hi). simpl in Hd.
  destruct (rolling_entry_position _ _ _ _ _ _ _ Hrun He eq_refl Hi)
    as (_ & -> & _).
  destruct (rolling_entry_position _ _ _ _ _ _ _ Hrun He' (eq_sym Hd) Hi)
    as (_ & -> & _).
  reflexivity.
Qed.

Lemma rolling_value_unique (s : series) (w : nat) (out : list entry)
  (e : entry) (v : Q) :
  rolling_average_deviation s w = Ok out ->
  In e out -> In (entry_date e, v) s -> entry_value e = v.
Proof.
  intros Hrun He Hs. apply In_nth_error in Hs as (i & Hi).
  destruct (rolling_entry_position _ _ _ _ _ _ _ Hrun He eq_refl Hi)
    as (_ & -> & _).
  reflexivity.
Qed.

Section Details.
Variable fsqrt : Q -> Q.
Variable s : series.
Variable rs : list entry.
Hypothesis rolling_ok : rolling_average_deviation s 30 = Ok rs.

Let zs := z_score_anomalies fsqrt s 3.
Let iqs := iqr_outliers s.

Lemma latest_rolling (d : Z) :
  latest d rolling_deviation (zs ++ iqs ++ rs) = latest d rolling_deviation rs.
Proof.
  rewrite !latest_app.
  destruct (latest d rolling_deviation rs); [reflexivity|].
  rewrite (latest_other_method d _ iqs), (latest_other_method d _ zs);
    [reflexivity | |].
  - intros e He.
    destruct (z_score_entries _ _ _ _ He) as (? & ? & ? & -> & _).
    discriminate.
  - intros e He.
    destruct (iqr_entries _ _ He) as (? & ? & ? & ? & -> & _). discriminate.
Qed.

Lemma latest_z_score (d : Z) :
  latest d z_score (zs ++ iqs ++ rs) = latest d z_score zs.
Proof.
  rewrite !latest_app.
  rewrite (latest_other_method d _ rs), (latest_other_method d _ iqs);
    [reflexivity | |].
  - intros e He.
    destruct (iqr_entries _ _ He) as (? & ? & ? & ? & -> & _). discriminate.
  - intros e He.
    destruct (rolling_entries _ _ _ _ rolling_ok He)
      as (? & ? & ? & ? & -> & _).
    discriminate.
Qed.

End Details.

(** ** Direction *)

(** C2. Every alert is classified in this order.  If the rolling detector
    has a finding for the alert's date, the alert's value is that finding's
    value and it is compared with that finding's rolling mean: strictly
    below gives drop, otherwise spike.  If the rolling detector has no
    finding for the date, the value is compared with the mean of the whole
    series instead: strictly below gives drop, otherwise spike. *)
Theorem direction_prefers_rolling_mean
  (fsqrt : Q -> Q) (st di : option string) (s : series)
  (alerts : list alert) (rs : list entry) :
  analyze fsqrt st di s = Ok alerts ->
  rolling_average_deviation s 30 = Ok rs ->
  forall a, In a alerts ->
    (forall v rm dev, In (RollEntry (a_date a) v rm dev) rs ->
       a_anomaly_value a = v /\
       a_anomaly_type a = if ltb (Fin v) rm then drop else spike) /\
    (~ flagged_at rs (a_date a) ->
       a_anomaly_type a
       = if ltb (Fin (a_anomaly_value a)) (mean (values s))
         then drop else spike).
Proof.
  intros Hrun Hrs a Ha.
  destruct (alert_candidate fsqrt st di s rs Hrs alerts Hrun a Ha)
    as (f & Hc & Hv).
  destruct (validate_inv _ _ _ _ _ _ Hv (or_introl eq_refl))
    as (_ & _ & _ & Hval & _ & Hdir & _).
  destruct Hc as (_ & Hhd & _ & Hdet).
  rewrite (Hdet rolling_deviation), latest_rolling in Hdir.
  split.
  - intros v rm dev Hin.
    destruct (latest_exists (a_date a) rolling_deviation rs _ Hin
                eq_refl eq_refl) as (e' & He').
    rewrite He' in Hdir. apply latest_some in He' as (Hin' & Hd' & _).
    assert (e' = RollEntry (a_date a) v rm dev) as ->.
    { apply (rolling_unique s 30 rs _ _ Hrs Hin' Hin). exact Hd'. }
    destruct Hdir as (rm' & [= <-] & Hty).
    assert (Hv' : c_value f = v).
    { destruct (hd_error _) as [e0|] eqn:E0; [|discriminate].
      injection Hhd as <-.
      assert (Hin0 : In e0 (findings_on (a_date a)
                              (z_score_anomalies fsqrt s 3
                               ++ iqr_outliers s ++ rs))).
      { destruct (findings_on _ _); [discriminate|].
        injection E0 as ->. left. reflexivity. }
      apply filter_In in Hin0 as (Hin0 & Hd0). apply Z.eqb_eq in Hd0.
      apply (every_from_series fsqrt s rs Hrs) in Hin0. rewrite Hd0 in Hin0.
      symmetry.
      apply (rolling_value_unique s 30 rs
               (RollEntry (a_date a) v rm dev) _ Hrs Hin Hin0). }
    rewrite Hval, Hv'. rewrite Hv' in Hty. split; [reflexivity | exact Hty].
  - intros Hnot.
    destruct (latest (a_date a) rolling_deviation rs) as [e'|] eqn:He'.
    + exfalso. apply Hnot. apply latest_some in He' as (Hin' & Hd' & _).
      exists e'. auto.
    + rewrite Hval. exact Hdir.
Qed.

Lemma dip_report : analyze sqrt6 None None dip_series = Ok [dip_alert].
Proof. vm_compute. reflexivity. Qed.

Lemma dip_rolling_run :
  rolling_average_deviation dip_series 30 = Ok dip_rolling.
Proof. vm_compute. reflexivity. Qed.

Lemma direction_prefers_rolling_mean_witness :
  a_anomaly_value dip_alert = 10 /\
  a_anomaly_type dip_alert = if ltb (Fin 10) (Fin 97) then drop else spike.
Proof.
  apply (proj1 (direction_prefers_rolling_mean sqrt6 None None dip_series
                  [dip_alert] dip_rolling dip_report dip_rolling_run
                  dip_alert (or_introl eq_refl))
           10 (Fin 97) (Fin (87 # 97))).
  left. reflexivity.
Defined.

(** ** Severity *)




Lemma round_half_even_bounds (x : Q) (lo hi : Z) :
  inject_Z lo <= x -> x <= inject_Z hi ->
  (lo <= round_half_even x <= hi)%Z.
Proof.
  destruct x as [n d]. unfold Qle, inject_Z, round_half_even.
  cbn [Qnum Qden]. cbv zeta. intros Hlo Hhi.
  pose proof (Z.div_mod n (Z.pos d) ltac:(lia)) as Hdm.
  pose proof (Z.mod_pos_bound n (Z.pos d) ltac:(lia)) as Hr.
  assert (Hf : (lo <= n / Z.pos d)%Z)
    by (apply Z.div_le_lower_bound; lia).
  assert (Hf' : (n / Z.pos d <= hi)%Z)
    by (apply Z.div_le_upper_bound; lia).
  assert (Hup : (0 < n mod Z.pos d -> n / Z.pos d + 1 <= hi)%Z).
  { intros Hpos.
    assert (n / Z.pos d < hi)%Z; [|lia].
    apply Z.div_lt_upper_bound; [lia|].
    destruct (Z.eq_dec n (Z.pos d * hi)) as [E|]; [|lia].
    rewrite E, Z.mul_comm, Z.mod_mul in Hpos; lia. }
  destruct (2 * (n mod Z.pos d) ?= Z.pos d)%Z eqn:C.
  - apply Z.compare_eq in C.
    assert (Hpos : (0 < n mod Z.pos d)%Z) by lia. specialize (Hup Hpos).
    destruct (Z.even (n / Z.pos d)); split; lia.
  - split; lia.
  - apply Z.compare_gt_iff in C.
    assert (Hpos : (0 < n mod Z.pos d)%Z) by lia. specialize (Hup Hpos).
    split; lia.
Qed.

Lemma py_round_2 (b : Q) :
  py_round (Fin b) 2
  = Fin (Qred (round_half_even (b * (100 # 1)) # 100)).
Proof. reflexivity. Qed.

(** A z-score above the threshold 3, capped and rounded, lies between 3
    and 10 and has two decimals. *)
Lemma capped_severity_bounds (z : fl) :
  gtb z (Fin 3) = true ->
  exists q, py_round (py_min (Fin 10) z) 2 = Fin q /\
            3 <= q /\ q <= 10 /\ exists k : Z, q == k # 100.
Proof.
  intros Hz. unfold py_min.
  destruct (ltb z (Fin 10)) eqn:Hcap.
  - destruct z as [b| | |]; try discriminate.
    apply gtb_Fin in Hz. simpl in Hcap. apply Qltb_true in Hcap.
    rewrite py_round_2.
    set (k := round_half_even (b * (100 # 1))).
    assert (Hk : (300 <= k <= 1000)%Z).
    { apply round_half_even_bounds.
      - change (inject_Z 300) with (3 * (100 # 1)). 
        apply Qmult_le_compat_r; [lra | discriminate].
      - change (inject_Z 1000) with (10 * (100 # 1)).
        apply Qmult_le_compat_r; [lra | discriminate]. }
    exists (Qred (k # 100)). split; [reflexivity|].
    assert (Hq : Qred (k # 100) == k # 100) by apply Qred_correct.
    split; [rewrite Hq; unfold Qle; simpl; lia|].
    split; [rewrite Hq; unfold Qle; simpl; lia|].
    exists k. exact Hq.
  - exists 10. split; [reflexivity|]. split; [lra|]. split; [lra|].
    exists 1000%Z. reflexivity.
Qed.

(** Either the default severity, or a capped and rounded z-score that
    exceeded the threshold. *)
Lemma severity_from_z_score_cases
  (fsqrt : Q -> Q) (st di : option string) (s : series)
  (alerts : list alert) :
  analyze fsqrt st di s = Ok alerts ->
  forall a, In a alerts ->
  a_severity_score a = Fin 5 \/
  exists z, gtb z (Fin 3) = true /\
            a_severity_score a = py_round (py_min (Fin 10) z) 2.
Proof.
  intros Hrun a Ha.
  destruct (analyze_rolling _ _ _ _ _ Hrun) as (rs & Hrs).
  destruct (alert_candidate fsqrt st di s rs Hrs alerts Hrun a Ha)
    as (f & Hc & Hv).
  destruct (validate_inv _ _ _ _ _ _ Hv (or_introl eq_refl))
    as (_ & _ & _ & _ & _ & _ & Hsev).
  destruct Hc as (_ & _ & _ & Hdet).
  rewrite (Hdet z_score), (latest_z_score fsqrt s rs Hrs) in Hsev.
  destruct (latest _ _ _) as [e|] eqn:E; [|left; exact Hsev].
  right. apply latest_some in E as (Hin & _).
  destruct (z_score_entries _ _ _ _ Hin) as (d & v & z & -> & _ & Hgt).
  destruct Hsev as (z' & [= <-] & Hs). exists z. auto.
Qed.

(** C5. The severity of every alert is a number between 0 and 10 with two
    decimals: a whole number of hundredths. *)
Theorem severity_within_bounds
  (fsqrt : Q -> Q) (st di : option string) (s : series)
  (alerts : list alert) :
  analyze fsqrt st di s = Ok alerts ->
  forall a, In a alerts ->
  exists q, a_severity_score a = Fin q /\
            0 <= q /\ q <= 10 /\ exists k : Z, q == k # 100.
Proof.
  intros Hrun a Ha.
  destruct (severity_from_z_score_cases fsqrt st di s alerts Hrun a Ha)
    as [H5|(z & Hz & Hs)].
  - exists 5. split; [exact H5|]. split; [lra|]. split; [lra|].
    exists 500%Z. reflexivity.
  - destruct (capped_severity_bounds z Hz) as (q & Hq & Hlo & Hhi & Hk).
    exists q. rewrite Hs. split; [exact Hq|]. split; [lra|]. auto.
Qed.

Lemma severity_within_bounds_witness :
  exists q, a_severity_score dip_alert = Fin q /\
            0 <= q /\ q <= 10 /\ exists k : Z, q == k # 100.
Proof.
  apply (severity_within_bounds sqrt6 None None dip_series [dip_alert]
           dip_report dip_alert).
  left. reflexivity.
Defined.

(** ** The daily scan *)

Section ScanFacts.
Variable fsqrt : Q -> Q.
Variable db : database.

Lemma report_fetch_failure (st di : string) (e : exc) (w : world) :
  fetch db (st, di) = Raise e ->
  comprehensive_anomaly_report fsqrt db (Some st) (Some di) 90 w
  = (Ok [], print ("Data fetch error: " ++ exc_msg e) w).
Proof.
  unfold fetch, comprehensive_anomaly_report, get_time_series_data.
  cbn [fst snd]. intros ->. reflexivity.
Qed.

Lemma report_partition (p : string * string) (w : world) :
  detection_returns fsqrt db p ->
  comprehensive_anomaly_report fsqrt db (Some (fst p)) (Some (snd p)) 90 w
  = (Ok (partition_alerts fsqrt db p),
     {| stdout := stdout w ++ partition_log db p;
        anomaly_alerts := anomaly_alerts w |}).
Proof.
  intros Hdet. unfold detection_returns in Hdet.
  unfold comprehensive_anomaly_report, get_time_series_data,
    partition_alerts, partition_log.
  fold (fetch db p). destruct (fetch db p) as [df|e].
  - rewrite app_nil_r. destruct (Hdet df eq_refl) as (alerts & Ha).
    destruct w as [out tbl]. cbn [stdout anomaly_alerts].
    destruct (sort_by_date df) as [|x l]; [reflexivity|].
    rewrite Ha. reflexivity.
  - reflexivity.
Qed.

Lemma scan_rows_spec (rows : list (string * string)) (acc : list alert)
  (w : world) :
  Forall (detection_returns fsqrt db) rows ->
  scan_rows fsqrt db rows acc w
  = (Ok (acc ++ flat_map (partition_alerts fsqrt db) rows),
     {| stdout := stdout w ++ flat_map (partition_log db) rows;
        anomaly_alerts := anomaly_alerts w |}).
Proof.
  intros Hall. revert acc w.
  induction Hall as [|[st di] rows Hp _ IH]; intros acc w.
  - simpl. rewrite !app_nil_r. destruct w. reflexivity.
  - cbn [scan_rows flat_map].
    pose proof (report_partition (st, di) w Hp) as Hrep.
    cbn [fst snd] in Hrep. rewrite Hrep, IH.
    cbn [stdout anomaly_alerts]. rewrite <- !app_assoc. reflexivity.
Qed.


End ScanFacts.

(** The scan over the three partitions, run: the second partition's fetch
    failure is printed, the alerts of the first and the third are stored. *)
Example flaky_scan_run :
  detect_anomalies_daily sqrt6 flaky_db empty_world
  = (Ok tt,
     {| stdout := ["Starting Anomaly Detection...";
                   "Data fetch error: connection lost";
                   "Inserted 2 alerts."]%string;
        anomaly_alerts :=
          [ {| a_date := a_date dip_alert;
               a_metric_name := a_metric_name dip_alert;
               a_anomaly_value := a_anomaly_value dip_alert;
               a_severity_score := a_severity_score dip_alert;
               a_anomaly_type := a_anomaly_type dip_alert;
               a_detection_methods := a_detection_methods dip_alert;
               a_district := Some "D1"%string;
               a_state := Some "S1"%string |};
            spike_alert ] |}).
Proof. vm_compute. reflexivity. Qed.

(* ================================================================== *)
(** * Further properties of the detectors and the report *)

(** ** When the rolling detector fails *)

Lemma loop_step_ambiguous (R : list row) (d : Z) (rest : list Z)
  (r1 r2 : row) (l : list row) :
  filter (fun r : row => Z.eqb (fst r) d) R = r1 :: r2 :: l ->
  rolling_loop (map row_value R) (map row_mean R) (map row_dev R) (d :: rest)
  = Raise (ValueError "The truth value of a Series is ambiguous").
Proof.
  intros Hd. cbn [rolling_loop].
  rewrite (loc_map row_dev fst d R (fun _ => eq_refl)), Hd. reflexivity.
Qed.

Lemma rolling_loop_failure (R rs : list row) (e : exc) :
  incl rs R ->
  rolling_loop (map row_value R) (map row_mean R) (map row_dev R)
    (map fst rs) = Raise e ->
  e = ValueError "The truth value of a Series is ambiguous".
Proof.
  induction rs as [|r rs IH]; intros Hin Hrun; [discriminate|].
  assert (Hr : In r R) by (apply Hin; left; reflexivity).
  assert (Hrs : incl rs R) by (intros x Hx; apply Hin; right; exact Hx).
  pose proof (by_label_self R r Hr) as Hself.
  cbn [map] in Hrun.
  destruct (filter (fun r' : row => Z.eqb (fst r') (fst r)) R)
    as [|r1 [|r2 l]] eqn:E.
  - destruct Hself.
  - destruct Hself as [->|[]].
    rewrite (loop_step_unique R r (map fst rs) E) in Hrun.
    destruct (rolling_loop _ _ _ (map fst rs)) as [more|e'] eqn:Er;
      [discriminate|].
    cbn [bind] in Hrun. injection Hrun as <-. apply IH; auto.
  - rewrite (loop_step_ambiguous R (fst r) (map fst rs) r1 r2 l E) in Hrun.
    congruence.
Qed.

Lemma filter_only_position {A} (p : A -> bool) (l : list A) (i : nat)
  (r : A) :
  nth_error l i = Some r -> p r = true ->
  (forall j x, nth_error l j = Some x -> p x = true -> j = i) ->
  filter p l = [r].
Proof.
  revert i. induction l as [|y l IH]; intros i Hi Hp Honly.
  - destruct i; discriminate.
  - destruct i as [|i]; simpl in Hi.
    + injection Hi as ->. simpl. rewrite Hp. f_equal.
      assert (Hnone : forall x, In x l -> p x = false).
      { intros x Hx. destruct (p x) eqn:Ex; [|reflexivity].
        apply In_nth_error in Hx as (j & Hj).
        specialize (Honly (S j) x Hj Ex). discriminate. }
      clear - Hnone. induction l as [|z l IHl]; [reflexivity|].
      simpl. rewrite (Hnone z (or_introl eq_refl)).
      apply IHl. intros x Hx. apply Hnone. right. exact Hx.
    + simpl. destruct (p y) eqn:Ey.
      * specialize (Honly 0%nat y eq_refl Ey). discriminate.
      * apply (IH i Hi Hp). intros j x Hj Hx.
        specialize (Honly (S j) x Hj Hx). lia.
Qed.

Lemma tail_labels_unique_positions (s : series) (w : nat) :
  tail_labels_unique s w <->
  (forall i j d v v', (w <= i)%nat ->
     nth_error s i = Some (d, v) -> nth_error s j = Some (d, v') -> i = j).
Proof.
  unfold tail_labels_unique. rewrite Forall_forall. split.
  - intros Hu i j d v v' Hw Hi Hj.
    set (m := window_mean (values s) w i).
    set (m' := window_mean (values s) w j).
    assert (Hri : nth_error (rows s w) i = Some (d, (v, m, ratio v m)))
      by (apply rows_nth; auto).
    assert (Hrj : nth_error (rows s w) j = Some (d, (v', m', ratio v' m')))
      by (apply rows_nth; auto).
    assert (Hin : In (d, (v, m, ratio v m)) (skipn w (rows s w))).
    { apply In_skipn_nth. exists i. auto. }
    specialize (Hu _ Hin).
    eapply (filter_singleton_position _ _ _ _ _ _ _ Hu Hri);
      [apply Z.eqb_refl | exact Hrj | apply Z.eqb_refl].
  - intros Hpos r Hr. apply In_skipn_nth in Hr as (i & Hw & Hi).
    destruct r as [d [[v m] dev]]. pose proof Hi as Hrow.
    apply rows_nth in Hi as (Hi & _ & _).
    apply (filter_only_position _ _ i); [exact Hrow | apply Z.eqb_refl|].
    intros j [d' [[v' m'] dev']] Hj Hd. cbn [fst] in Hd.
    apply Z.eqb_eq in Hd. subst d'. apply rows_nth in Hj as (Hj & _).
    symmetry. exact (Hpos i j d v v' Hw Hi Hj).
Qed.

Lemma rolling_outcome (s : series) (w : nat) :
  ((exists out, rolling_average_deviation s w = Ok out) <->
   (forall i j d v v', (w <= i)%nat ->
      nth_error s i = Some (d, v) -> nth_error s j = Some (d, v') -> i = j))
  /\
  (forall e, rolling_average_deviation s w = Raise e ->
     e = ValueError "The truth value of a Series is ambiguous").
Proof.
  destruct (Nat.le_gt_cases w (length s)) as [Hw|Hw].
  - split.
    + rewrite (rolling_ok_iff s w Hw). apply tail_labels_unique_positions.
    + intros e He. rewrite (rolling_unfold s w Hw) in He.
      apply (rolling_loop_failure (rows s w) (skipn w (rows s w)) e);
        [|exact He].
      intros x Hx. eapply In_skipn_In, Hx.
  - assert (Hrun : rolling_average_deviation s w = Ok []).
    { unfold rolling_average_deviation.
      destruct (Nat.ltb_spec (length s) w); [reflexivity | lia]. }
    rewrite Hrun. split; [|discriminate]. split; [|eauto].
    intros _ i j d v v' Hi Hn.
    assert (i < length s)%nat by (apply nth_error_Some; congruence). lia.
Qed.

(** X1. The rolling detector returns exactly when no date met from
    position [window] on occurs a second time in the series; otherwise the
    label lookup yields a sub-series and the detector fails with the
    ValueError of an ambiguous truth value, never with another exception. *)
Theorem rolling_fails_on_repeated_date (s : series) (w : nat) :
  ((exists out, rolling_average_deviation s w = Ok out) <->
   (forall i j d v v', (w <= i)%nat ->
      nth_error s i = Some (d, v) -> nth_error s j = Some (d, v') -> i = j))
  /\
  (forall e, rolling_average_deviation s w = Raise e ->
     e = ValueError "The truth value of a Series is ambiguous").
Proof. apply rolling_outcome. Qed.

Lemma rolling_raises (s : series) (w i j : nat) (d : Z) (v v' : Q) :
  (w <= i)%nat -> i <> j ->
  nth_error s i = Some (d, v) -> nth_error s j = Some (d, v') ->
  rolling_average_deviation s w
  = Raise (ValueError "The truth value of a Series is ambiguous").
Proof.
  intros Hw Hij Hi Hj. destruct (rolling_outcome s w) as [Hiff Hexc].
  destruct (rolling_average_deviation s w) as [out|e] eqn:E.
  - exfalso. apply Hij.
    apply (proj1 Hiff (ex_intro _ out eq_refl) i j d v v' Hw Hi Hj).
  - f_equal. apply Hexc. reflexivity.
Qed.

Lemma rolling_fails_on_repeated_date_witness :
  rolling_average_deviation repeated_date_series 30
  = Raise (ValueError "The truth value of a Series is ambiguous").
Proof.
  destruct (rolling_fails_on_repeated_date repeated_date_series 30)
    as [Hiff Hexc].
  destruct (rolling_average_deviation repeated_date_series 30)
    as [out|e] eqn:E.
  - exfalso.
    assert (H : 30%nat = 31%nat); [|discriminate].
    apply (proj1 Hiff (ex_intro _ out eq_refl) 30%nat 31%nat 30%Z 10 10);
      [lia | reflexivity | reflexivity].
  - f_equal. apply Hexc. reflexivity.
Defined.

(** ** When the report fails *)

(** X2. The report on a series fails exactly when its rolling detector
    fails, and with the same exception: the dictionary lookups of the
    aggregation never miss a key. *)
Theorem report_fails_only_with_rolling
  (fsqrt : Q -> Q) (st di : option string) (s : series) (e : exc) :
  analyze fsqrt st di s = Raise e <->
  rolling_average_deviation s 30 = Raise e.
Proof.
  destruct (rolling_average_deviation s 30) as [rs|e'] eqn:Hrs.
  - destruct (analyze_returns fsqrt st di s rs Hrs) as (alerts & Ha).
    rewrite Ha. split; discriminate.
  - unfold analyze. rewrite Hrs. cbn [bind]. split; congruence.
Qed.

(** ** What an alert carries *)

Lemma validate_fields (series_mean : fl) (st di : option string)
  (f : candidate) (al : list alert) (a : alert) :
  validate series_mean st di f = Ok al -> In a al ->
  a_state a = st /\ a_district a = di /\
  a_metric_name a = "daily_enrollments"%string.
Proof.
  unfold validate. intros Hv Hin.
  destruct (2 <=? length (c_methods f))%nat;
    [|injection Hv as <-; destruct Hin].
  destruct (dict_get method_eqb rolling_deviation (c_details f)) as [er|];
    [destruct (entry_rolling_mean er) as [rm|x]; [|discriminate]|];
    (destruct (dict_get method_eqb z_score (c_details f)) as [ez|];
     [destruct (entry_z_score ez) as [z|x']; [|discriminate]|]);
    cbn [bind] in Hv; injection Hv as <-; destruct Hin as [<-|[]];
    repeat split.
Qed.

Lemma validate_all_dates (series_mean : fl) (st di : option string)
  (items : list (Z * candidate)) (alerts : list alert) :
  validate_all series_mean st di items = Ok alerts ->
  (forall k f, In (k, f) items -> c_date f = k) ->
  NoDup (map fst items) -> NoDup (map a_date alerts).
Proof.
  revert alerts. induction items as [|[k f] items IH];
    intros alerts Hrun Hkey Hnd.
  - injection Hrun as <-. constructor.
  - cbn [validate_all] in Hrun.
    destruct (validate series_mean st di f) as [here|] eqn:Ef; [|discriminate].
    cbn [bind] in Hrun.
    destruct (validate_all series_mean st di items) as [more|] eqn:Em;
      [|discriminate].
    cbn [bind] in Hrun. injection Hrun as <-.
    simpl in Hnd. inversion Hnd as [|? ? Hk Hrest]; subst.
    assert (Hmore : NoDup (map a_date more)).
    { apply (IH more eq_refl); [|exact Hrest].
      intros k' f' Hin. apply Hkey. right. exact Hin. }
    destruct here as [|a here]; [exact Hmore|].
    destruct (validate_inv _ _ _ _ _ _ Ef (or_introl eq_refl))
      as (_ & Hone & Hd & _).
    injection Hone as ->. simpl. constructor; [|exact Hmore].
    intros Hin. apply Hk.
    apply in_map_iff in Hin as (a' & Hda & Ha').
    apply (validate_all_In _ _ _ _ _ a' Em) in Ha'
      as (k' & f' & al & Hitem & Hv & Hal).
    destruct (validate_inv _ _ _ _ _ _ Hv Hal) as (_ & _ & Hd' & _).
    assert (Hk' : c_date f' = k') by (apply Hkey; right; exact Hitem).
    assert (Hkf : c_date f = k) by (apply Hkey; left; reflexivity).
    replace k with k' by congruence.
    change k' with (fst (k', f')). apply in_map, Hitem.
Qed.

(** X3. A report holds at most one alert per date. *)
Theorem one_alert_per_date
  (fsqrt : Q -> Q) (st di : option string) (s : series)
  (alerts : list alert) :
  analyze fsqrt st di s = Ok alerts -> NoDup (map a_date alerts).
Proof.
  intros Hrun. destruct (analyze_rolling _ _ _ _ _ Hrun) as (rs & Hrs).
  rewrite (analyze_unfold fsqrt st di s rs Hrs) in Hrun.
  apply (validate_all_dates _ _ _ _ _ Hrun).
  - intros k f Hin. apply store_item in Hin. apply Hin.
  - apply add_findings_keys. constructor.
Qed.

Lemma one_alert_per_date_witness : NoDup (map a_date [dip_alert]).
Proof.
  apply (one_alert_per_date sqrt6 None None dip_series [dip_alert]).
  exact dip_report.
Defined.

(** X4. Every alert of a report is about a point of the series: its date
    and value are a (date, value) pair of the input.  It carries the state
    and district the report was asked for and the metric name
    "daily_enrollments". *)
Theorem alert_about_series_point
  (fsqrt : Q -> Q) (st di : option string) (s : series)
  (alerts : list alert) :
  analyze fsqrt st di s = Ok alerts ->
  forall a, In a alerts ->
    In (a_date a, a_anomaly_value a) s /\
    a_state a = st /\ a_district a = di /\
    a_metric_name a = "daily_enrollments"%string.
Proof.
  intros Hrun a Ha. destruct (analyze_rolling _ _ _ _ _ Hrun) as (rs & Hrs).
  destruct (alert_candidate fsqrt st di s rs Hrs alerts Hrun a Ha)
    as (f & Hc & Hv).
  split; [|apply (validate_fields _ _ _ _ _ _ Hv (or_introl eq_refl))].
  destruct (validate_inv _ _ _ _ _ _ Hv (or_introl eq_refl))
    as (_ & _ & _ & Hval & _).
  destruct Hc as (_ & Hhd & _).
  destruct (hd_error _) as [e0|] eqn:E0; [|discriminate].
  injection Hhd as Hhd. rewrite Hval, <- Hhd.
  assert (Hin0 : In e0 (findings_on (a_date a)
                          (z_score_anomalies fsqrt s 3
                           ++ iqr_outliers s ++ rs))).
  { destruct (findings_on _ _); [discriminate|].
    injection E0 as ->. left. reflexivity. }
  apply filter_In in Hin0 as (Hin0 & Hd0). apply Z.eqb_eq in Hd0.
  rewrite <- Hd0. apply (every_from_series fsqrt s rs Hrs), Hin0.
Qed.

Lemma alert_about_series_point_witness :
  In (a_date dip_alert, a_anomaly_value dip_alert) dip_series /\
  a_state dip_alert = None /\ a_district dip_alert = None /\
  a_metric_name dip_alert = "daily_enrollments"%string.
Proof.
  apply (alert_about_series_point sqrt6 None None dip_series [dip_alert]
           dip_report dip_alert).
  left. reflexivity.
Defined.

(** X5. No alert has a severity below 3: the severity is 5.0, or a z-score
    that exceeded the threshold 3, capped at 10 and rounded. *)
Theorem severity_at_least_three
  (fsqrt : Q -> Q) (st di : option string) (s : series)
  (alerts : list alert) :
  analyze fsqrt st di s = Ok alerts ->
  forall a, In a alerts ->
  exists q, a_severity_score a = Fin q /\ 3 <= q /\ q <= 10.
Proof.
  intros Hrun a Ha.
  destruct (severity_from_z_score_cases fsqrt st di s alerts Hrun a Ha)
    as [H5|(z & Hz & Hs)].
  - exists 5. split; [exact H5|]. split; lra.
  - destruct (capped_severity_bounds z Hz) as (q & Hq & Hlo & Hhi & _).
    exists q. rewrite Hs. auto.
Qed.

Lemma severity_at_least_three_witness :
  exists q, a_severity_score dip_alert = Fin q /\ 3 <= q /\ q <= 10.
Proof.
  apply (severity_at_least_three sqrt6 None None dip_series [dip_alert]
           dip_report dip_alert).
  left. reflexivity.
Defined.

(** ** Constant series *)

Lemma insert_sorted_In (x y : Q) (l : list Q) :
  In y (insert_sorted x l) -> y = x \/ In y l.
Proof.
  induction l as [|z l IH]; simpl.
  - intros [<-|[]]. left. reflexivity.
  - destruct (Qle_bool x z); simpl.
    + intros [<-|H]; auto.
    + intros [<-|H]; auto. destruct (IH H); auto.
Qed.

Lemma sort_values_In (y : Q) (l : list Q) :
  In y (sort_values l) -> In y l.
Proof.
  induction l as [|x l IH]; simpl; [auto|].
  intros H. apply insert_sorted_In in H as [->|H]; auto.
Qed.

Lemma insert_sorted_length (x : Q) (l : list Q) :
  length (insert_sorted x l) = S (length l).
Proof.
  induction l as [|z l IH]; simpl; [reflexivity|].
  destruct (Qle_bool x z); simpl; [reflexivity | rewrite IH; reflexivity].
Qed.

Lemma sort_values_length (l : list Q) : length (sort_values l) = length l.
Proof.
  induction l as [|x l IH]; simpl; [reflexivity|].
  rewrite insert_sorted_length, IH. reflexivity.
Qed.

Lemma nth_constant (c d : Q) (l : list Q) (j : nat) :
  Forall (fun v => v == c) l -> d == c -> nth j l d == c.
Proof.
  intros Hl Hd. destruct (Nat.lt_ge_cases j (length l)) as [Hj|Hj].
  - rewrite Forall_forall in Hl. apply Hl, nth_In, Hj.
  - rewrite nth_overflow by exact Hj. exact Hd.
Qed.

(** Every quantile of a constant sample is the constant. *)
Lemma quantile_constant (c q : Q) (vals : list Q) :
  vals <> [] -> Forall (fun v => v == c) vals ->
  0 <= q -> q <= 1 -> quantile vals q == c.
Proof.
  intros Hne Hc Hq0 Hq1. unfold quantile. rewrite Qred_correct.
  set (h := of_nat (length vals - 1) * q).
  set (sorted := sort_values vals).
  assert (Hs : Forall (fun v => v == c) sorted).
  { apply Forall_forall. intros y Hy. rewrite Forall_forall in Hc.
    apply Hc, sort_values_In, Hy. }
  assert (Hn : (1 <= length vals)%nat)
    by (destruct vals; simpl; [congruence | lia]).
  assert (Hh0 : 0 <= h).
  { unfold h. apply Qmult_le_0_compat; [|exact Hq0].
    unfold of_nat, Qle; simpl. lia. }
  assert (Hh1 : h <= of_nat (length vals - 1)).
  { unfold h.
    assert (Hn0 : 0 <= of_nat (length vals - 1))
      by (unfold of_nat, Qle; simpl; lia).
    clear - Hn0 Hq0 Hq1. set (n := of_nat (length vals - 1)) in *.
    clearbody n. nra. }
  assert (Hj0 : (0 <= Qfloor h)%Z).
  { change 0%Z with (Qfloor 0). apply Qfloor_resp_le, Hh0. }
  assert (Hj1 : (Qfloor h <= Z.of_nat (length vals - 1))%Z).
  { rewrite <- (Qfloor_Z (Z.of_nat (length vals - 1))).
    apply Qfloor_resp_le. exact Hh1. }
  assert (Hin : (Z.to_nat (Qfloor h) < length sorted)%nat).
  { unfold sorted. rewrite sort_values_length. lia. }
  assert (Ha : nth (Z.to_nat (Qfloor h)) sorted 0 == c).
  { rewrite Forall_forall in Hs. apply Hs, nth_In, Hin. }
  assert (Hb : nth (S (Z.to_nat (Qfloor h))) sorted
                 (nth (Z.to_nat (Qfloor h)) sorted 0) == c)
    by (apply nth_constant; assumption).
  rewrite Hb, Ha. ring.
Qed.

Lemma iqr_constant_nothing (s : series) :
  constant_series s -> iqr_outliers s = [].
Proof.
  intros (c & Hc). unfold iqr_outliers.
  destruct (Nat.ltb_spec (length s) 5) as [|Hlen]; [reflexivity|].
  assert (Hne : values s <> []).
  { destruct s; simpl in *; [lia | congruence]. }
  assert (H1 : quantile (values s) (1 # 4) == c)
    by (apply quantile_constant; auto; lra).
  assert (H3 : quantile (values s) (3 # 4) == c)
    by (apply quantile_constant; auto; lra).
  apply flat_map_nil. intros [d v] Hin.
  assert (Hv : v == c).
  { rewrite Forall_forall in Hc. apply Hc.
    change v with (snd (d, v)). apply in_map, Hin. }
  replace (Qltb v _) with false; [replace (Qltb _ v) with false|].
  - reflexivity.
  - symmetry. apply Qltb_false. rewrite Qred_correct, H1, H3, Hv. lra.
  - symmetry. apply Qltb_false. rewrite Qred_correct, H1, H3, Hv. lra.
Qed.

(** X6. On a constant series the IQR detector flags nothing: both quartiles
    and both bounds equal the constant, and no value lies strictly
    outside. *)
Theorem iqr_constant_flags_nothing (s : series) :
  constant_series s -> iqr_outliers s = [].
Proof. apply iqr_constant_nothing. Qed.

Lemma iqr_constant_flags_nothing_witness :
  iqr_outliers (days_from 0 (repeat 7 6)) = [].
Proof.
  apply (iqr_constant_flags_nothing (days_from 0 (repeat 7 6))).
  exists 7. repeat constructor.
Defined.

Lemma mean_constant (c : Q) (l : list Q) :
  l <> [] -> Forall (fun v => v == c) l ->
  exists m, mean l = Fin m /\ m == c.
Proof.
  intros Hne Hc. destruct (mean_Fin _ Hne) as (m & Hm & Hmv).
  exists m. split; [exact Hm|].
  assert (Hlen : 0 < of_nat (length l)).
  { apply of_nat_pos. destruct l; simpl; [congruence | lia]. }
  rewrite Hmv, (Qsum_const _ _ Hc). field. lra.
Qed.

Lemma ratio_of_mean_value (v m : Q) :
  v == m -> gtb (ratio v (Fin m)) (Fin (1 # 2)) = false.
Proof.
  intros Hv. unfold ratio. cbn [sub div].
  assert (Hz : Qzero (Qred (v - m)) = true).
  { apply Qzero_true. rewrite Qred_correct, Hv. ring. }
  rewrite Hz. destruct (Qzero m) eqn:Hm; [reflexivity|].
  cbn [abs gtb ltb]. apply Qltb_false.
  apply Qzero_true in Hz. rewrite Qred_correct in Hz.
  rewrite !Qred_correct. rewrite Hz.
  apply Qzero_false in Hm.
  setoid_replace (0 / m) with 0 by (field; exact Hm).
  simpl. lra.
Qed.

Lemma rolling_constant_nothing (s : series) (w : nat)
  (out : list entry) :
  constant_series s ->
  rolling_average_deviation s w = Ok out -> out = [].
Proof.
  intros (c & Hc) Hrun. rewrite (rolling_result _ _ _ Hrun).
  apply flat_map_nil. intros [d [[v m] dev]] Hr.
  apply In_skipn_nth in Hr as (i & Hw & Hi).
  apply rows_nth in Hi as (Hi & -> & ->).
  assert (Hv : v == c).
  { rewrite Forall_forall in Hc. apply Hc.
    change v with (snd (d, v)). apply in_map. eapply nth_error_In, Hi. }
  cbn [flag_row]. fold (ratio v (window_mean (values s) w i)).
  replace (gtb _ _) with false; [reflexivity|]. symmetry.
  unfold window_mean. destruct (Nat.ltb_spec (i + 1) w); [lia|].
  set (win := firstn w (skipn (i + 1 - w) (values s))).
  destruct win as [|x win'] eqn:Ew; [reflexivity|].
  destruct (mean_constant c (x :: win')) as (m & Hm & Hmc).
  - discriminate.
  - apply Forall_forall. intros y Hy. rewrite Forall_forall in Hc.
    apply Hc. rewrite <- Ew in Hy. unfold win in Hy.
    eapply In_skipn_In, In_firstn_In, Hy.
  - rewrite Hm. apply ratio_of_mean_value. rewrite Hv, Hmc. reflexivity.
Qed.

(** X7. On a constant series the rolling detector, when it returns, flags
    nothing: each rolling mean equals the constant, so the ratio is zero,
    or NaN when the constant is zero. *)
Theorem rolling_constant_flags_nothing (s : series) (w : nat)
  (out : list entry) :
  constant_series s ->
  rolling_average_deviation s w = Ok out -> out = [].
Proof. apply rolling_constant_nothing. Qed.

Lemma rolling_constant_flags_nothing_witness :
  exists out,
    rolling_average_deviation (days_from 0 (repeat 7 6)) 2 = Ok out /\
    out = [].
Proof.
  destruct (rolling_total (days_from 0 (repeat 7 6)) 2
              (days_from_NoDup 0 _)) as (out & Hout).
  exists out. split; [exact Hout|].
  apply (rolling_constant_flags_nothing (days_from 0 (repeat 7 6)) 2 out);
    [|exact Hout].
  exists 7. repeat constructor.
Defined.

Section ConstantReport.
Variable fsqrt : Q -> Q.
Hypothesis fsqrt_zero : forall q, 0 <= q -> (fsqrt q == 0 <-> q == 0).

Lemma z_score_constant (s : series) (t : Q) :
  constant_series s -> z_score_anomalies fsqrt s t = [].
Proof.
  intros (c & Hc). unfold z_score_anomalies.
  destruct (Nat.ltb_spec (length s) 3) as [|Hlen]; [reflexivity|].
  assert (Hstd : std_zero fsqrt (values s)).
  { apply (constant_std_zero fsqrt fsqrt_zero _ c); [|exact Hc].
    destruct s; simpl in *; [lia | congruence]. }
  apply flat_map_nil. intros [[date value] z] Hin.
  apply in_combine_r in Hin. apply in_map_iff in Hin as (z0 & <- & Hz0).
  pose proof (std_zero_zscore_NaN fsqrt fsqrt_zero _ Hstd) as Hnan.
  rewrite Forall_forall in Hnan. rewrite (Hnan _ Hz0). reflexivity.
Qed.

(** X8. The report on a constant series is empty whenever it is returned,
    and it is returned when the dates are pairwise distinct: none of the
    three detectors has a finding to aggregate. *)
Theorem constant_series_report_empty (st di : option string) (s : series) :
  constant_series s ->
  (forall alerts, analyze fsqrt st di s = Ok alerts -> alerts = []) /\
  (NoDup (index s) -> analyze fsqrt st di s = Ok []).
Proof.
  intros Hc.
  assert (Hrun : forall rs, rolling_average_deviation s 30 = Ok rs ->
                   analyze fsqrt st di s = Ok []).
  { intros rs Hrs. unfold analyze. rewrite Hrs. cbn [bind].
    rewrite (rolling_constant_nothing s 30 rs Hc Hrs).
    rewrite (z_score_constant s 3 Hc), (iqr_constant_nothing s Hc).
    reflexivity. }
  split.
  - intros alerts Ha.
    destruct (analyze_rolling _ _ _ _ _ Ha) as (rs & Hrs).
    rewrite (Hrun rs Hrs) in Ha. congruence.
  - intros Hnd. destruct (rolling_total s 30 Hnd) as (rs & Hrs).
    exact (Hrun rs Hrs).
Qed.

End ConstantReport.

Lemma constant_series_report_empty_witness :
  analyze sqrt6 None None (days_from 0 (repeat 7 40)) = Ok [].
Proof.
  apply (constant_series_report_empty sqrt6 sqrt6_zero None None
           (days_from 0 (repeat 7 40))).
  - exists 7. repeat constructor.
  - apply days_from_NoDup.
Defined.

(** ** What the daily scan stores *)

Section ScanOutcome.
Variable fsqrt : Q -> Q.
Variable db : database.

Lemma scan_rows_app (l1 l2 : list (string * string)) (acc : list alert)
  (w : world) :
  scan_rows fsqrt db (l1 ++ l2) acc w
  = match scan_rows fsqrt db l1 acc w with
    | (Ok acc', w') => scan_rows fsqrt db l2 acc' w'
    | (Raise e, w') => (Raise e, w')
    end.
Proof.
  revert acc w. induction l1 as [|[st di] l1 IH]; intros acc w.
  - reflexivity.
  - cbn [app scan_rows].
    destruct (comprehensive_anomaly_report fsqrt db (Some st) (Some di) 90 w)
      as [[alerts|e] w']; [apply IH | reflexivity].
Qed.

Lemma report_detection_raises (p : string * string) (e : exc) (w : world) :
  detection_raises fsqrt db p e ->
  comprehensive_anomaly_report fsqrt db (Some (fst p)) (Some (snd p)) 90 w
  = (Raise e, w).
Proof.
  intros (df & Hf & Hne & Ha).
  unfold comprehensive_anomaly_report, get_time_series_data.
  fold (fetch db p). rewrite Hf.
  destruct (sort_by_date df) as [|x l]; [congruence|].
  rewrite Ha. reflexivity.
Qed.

Lemma scan_rows_stops (before after : list (string * string))
  (p : string * string) (e : exc) (w : world) :
  Forall (detection_returns fsqrt db) before ->
  detection_raises fsqrt db p e ->
  scan_rows fsqrt db (before ++ p :: after) [] w
  = (Raise e,
     {| stdout := stdout w ++ flat_map (partition_log db) before;
        anomaly_alerts := anomaly_alerts w |}).
Proof.
  intros Hbefore Hp. rewrite scan_rows_app.
  rewrite (scan_rows_spec fsqrt db before [] w Hbefore).
  destruct p as [st di]. cbn [scan_rows].
  pose proof (report_detection_raises (st, di) e
                {| stdout := stdout w ++ flat_map (partition_log db) before;
                   anomaly_alerts := anomaly_alerts w |} Hp) as Hrep.
  cbn [fst snd] in Hrep. rewrite Hrep. reflexivity.
Qed.

Lemma fine_partitions (rows : list (string * string)) :
  Forall (fun p => fetch_fails db p \/ detection_returns fsqrt db p) rows ->
  Forall (detection_returns fsqrt db) rows.
Proof.
  intros Hall. eapply Forall_impl; [|exact Hall].
  intros p [(e & He)|Hp]; [|exact Hp].
  intros df Hdf. rewrite He in Hdf. discriminate.
Qed.

End ScanOutcome.

(** X9. When the district query answers, every partition either fails to
    fetch or is analysed normally, and the sink accepts the insertion, the
    scan appends to the alert table the alerts of all partitions in order,
    and prints its opening line, one line per failed fetch and, unless
    there was nothing to insert, the count of inserted alerts. *)
Theorem scan_stores_every_alert
  (fsqrt : Q -> Q) (db : database) (rows : list (string * string))
  (w : world) :
  read_sql_districts db = Ok rows ->
  Forall (fun p => fetch_fails db p \/ detection_returns fsqrt db p) rows ->
  (flat_map (partition_alerts fsqrt db) rows = [] \/
   to_sql_anomaly_alerts db (flat_map (partition_alerts fsqrt db) rows)
   = Ok tt) ->
  detect_anomalies_daily fsqrt db w
  = (Ok tt,
     {| stdout := stdout w ++ ["Starting Anomaly Detection..."%string]
                  ++ flat_map (partition_log db) rows
                  ++ inserted_line (flat_map (partition_alerts fsqrt db) rows);
        anomaly_alerts :=
          anomaly_alerts w ++ flat_map (partition_alerts fsqrt db) rows |}).
Proof.
  intros Hrows Hall Hsink. apply fine_partitions in Hall.
  unfold detect_anomalies_daily, scan_body. rewrite Hrows.
  rewrite (scan_rows_spec fsqrt db rows [] _ Hall). cbn [app].
  destruct (flat_map (partition_alerts fsqrt db) rows) as [|a l] eqn:E.
  - destruct w as [out tbl]. unfold print. cbn [stdout anomaly_alerts].
    cbn [inserted_line]. rewrite !app_nil_r, <- app_assoc. reflexivity.
  - destruct Hsink as [Hnil|Hok]; [discriminate|]. rewrite Hok.
    destruct w as [out tbl]. unfold print. cbn [stdout anomaly_alerts].
    cbn [inserted_line]. rewrite <- !app_assoc. reflexivity.
Qed.

Lemma flaky_partitions_fine :
  Forall (fun p => fetch_fails flaky_db p \/ detection_returns sqrt6 flaky_db p)
    flaky_rows.
Proof.
  apply Forall_cons; [|apply Forall_cons; [|apply Forall_cons; [|apply Forall_nil]]].
  - right. intros df Hdf. injection Hdf as <-.
    eexists. vm_compute. reflexivity.
  - left. eexists. reflexivity.
  - right. intros df Hdf. injection Hdf as <-.
    eexists. vm_compute. reflexivity.
Qed.

Lemma scan_stores_every_alert_witness :
  detect_anomalies_daily sqrt6 flaky_db empty_world
  = (Ok tt,
     {| stdout := stdout empty_world
                  ++ ["Starting Anomaly Detection..."%string]
                  ++ flat_map (partition_log flaky_db) flaky_rows
                  ++ inserted_line
                       (flat_map (partition_alerts sqrt6 flaky_db) flaky_rows);
        anomaly_alerts :=
          anomaly_alerts empty_world
          ++ flat_map (partition_alerts sqrt6 flaky_db) flaky_rows |}).
Proof.
  apply (scan_stores_every_alert sqrt6 flaky_db flaky_rows empty_world).
  - reflexivity.
  - exact flaky_partitions_fine.
  - right. reflexivity.
Defined.

(** X10. An exception in the detection step of one partition ends the
    scan: the call still returns normally and prints the error, but no
    alert is stored, those of the partitions already analysed included. *)
Theorem scan_detection_error_stores_nothing
  (fsqrt : Q -> Q) (db : database) (before after : list (string * string))
  (p : string * string) (e : exc) (w : world) :
  read_sql_districts db = Ok (before ++ p :: after) ->
  Forall (fun q => fetch_fails db q \/ detection_returns fsqrt db q) before ->
  detection_raises fsqrt db p e ->
  detect_anomalies_daily fsqrt db w
  = (Ok tt,
     {| stdout := stdout w ++ ["Starting Anomaly Detection..."%string]
                  ++ flat_map (partition_log db) before
                  ++ [("Error in daily detection: " ++ exc_msg e)%string];
        anomaly_alerts := anomaly_alerts w |}).
Proof.
  intros Hrows Hbefore Hp. apply fine_partitions in Hbefore.
  unfold detect_anomalies_daily, scan_body. rewrite Hrows.
  rewrite (scan_rows_stops fsqrt db before after p e _ Hbefore Hp).
  destruct w as [out tbl]. unfold print. cbn [stdout anomaly_alerts].
  rewrite <- !app_assoc. reflexivity.
Qed.

Lemma repeated_date_raises :
  detection_raises sqrt6 repeated_date_db ("S2", "D2")%string
    (ValueError "The truth value of a Series is ambiguous").
Proof.
  exists repeated_date_series. split; [reflexivity|].
  split; [vm_compute; discriminate | vm_compute; reflexivity].
Qed.

Lemma scan_detection_error_stores_nothing_witness :
  detect_anomalies_daily sqrt6 repeated_date_db empty_world
  = (Ok tt,
     {| stdout :=
          ["Starting Anomaly Detection...";
           "Error in daily detection: The truth value of a Series is ambiguous"
          ]%string;
        anomaly_alerts := [] |}).
Proof.
  apply (scan_detection_error_stores_nothing sqrt6 repeated_date_db
           [("S1", "D1")%string] [("S3", "D3")%string] ("S2", "D2")%string
           (ValueError "The truth value of a Series is ambiguous")
           empty_world).
  - reflexivity.
  - apply Forall_cons; [|apply Forall_nil].
    right. intros df Hdf. injection Hdf as <-.
    eexists. vm_compute. reflexivity.
  - exact repeated_date_raises.
Defined.

(** X11. When the sink refuses the insertion the scan stores nothing: it
    prints the error and returns normally, and the gathered alerts are
    lost. *)
Theorem scan_sink_failure_stores_nothing
  (fsqrt : Q -> Q) (db : database) (rows : list (string * string))
  (e : exc) (w : world) :
  read_sql_districts db = Ok rows ->
  Forall (fun p => fetch_fails db p \/ detection_returns fsqrt db p) rows ->
  flat_map (partition_alerts fsqrt db) rows <> [] ->
  to_sql_anomaly_alerts db (flat_map (partition_alerts fsqrt db) rows)
  = Raise e ->
  detect_anomalies_daily fsqrt db w
  = (Ok tt,
     {| stdout := stdout w ++ ["Starting Anomaly Detection..."%string]
                  ++ flat_map (partition_log db) rows
                  ++ [("Error in daily detection: " ++ exc_msg e)%string];
        anomaly_alerts := anomaly_alerts w |}).
Proof.
  intros Hrows Hall Hne Hsink. apply fine_partitions in Hall.
  unfold detect_anomalies_daily, scan_body. rewrite Hrows.
  rewrite (scan_rows_spec fsqrt db rows [] _ Hall). cbn [app].
  destruct (flat_map (partition_alerts fsqrt db) rows) as [|a l] eqn:E;
    [congruence|].
  rewrite Hsink. destruct w as [out tbl]. unfold print.
  cbn [stdout anomaly_alerts]. rewrite <- !app_assoc. reflexivity.
Qed.

Lemma scan_sink_failure_stores_nothing_witness :
  detect_anomalies_daily sqrt6 broken_sink_db empty_world
  = (Ok tt,
     {| stdout :=
          ["Starting Anomaly Detection...";
           "Data fetch error: connection lost";
           "Error in daily detection: disk full"]%string;
        anomaly_alerts := [] |}).
Proof.
  apply (scan_sink_failure_stores_nothing sqrt6 broken_sink_db flaky_rows
           (DatabaseError "disk full") empty_world).
  - reflexivity.
  - apply Forall_cons; [|apply Forall_cons; [|apply Forall_cons; [|apply Forall_nil]]].
    + right. intros df Hdf. injection Hdf as <-.
      eexists. vm_compute. reflexivity.
    + left. eexists. reflexivity.
    + right. intros df Hdf. injection Hdf as <-.
      eexists. vm_compute. reflexivity.
  - vm_compute. discriminate.
  - reflexivity.
Defined.

(** ** The service copy, the task and the view *)

Section ServiceFacts.
Variable fsqrt : Q -> Q.

Lemma service_report_eq (db : database) (st di : option string)
  (days : nat) (w : world) :
  service_comprehensive_anomaly_report fsqrt (Ok db) st di days w
  = comprehensive_anomaly_report fsqrt db st di days w.
Proof.
  unfold service_comprehensive_anomaly_report, service_get_time_series_data,
    comprehensive_anomaly_report.
  destruct (get_time_series_data db st di days w) as [[|x df] w'];
    reflexivity.
Qed.

Lemma service_scan_rows_eq (db : database) (rows : list (string * string))
  (acc : list alert) (w : world) :
  service_scan_rows fsqrt (Ok db) rows acc w = scan_rows fsqrt db rows acc w.
Proof.
  revert acc w. induction rows as [|[st di] rows IH]; intros acc w.
  - reflexivity.
  - cbn [service_scan_rows scan_rows]. rewrite service_report_eq.
    destruct (comprehensive_anomaly_report fsqrt db (Some st) (Some di) 90 w)
      as [[alerts|e] w']; [apply IH | reflexivity].
Qed.

(** A report leaves the alert table alone, and what it returns does not
    depend on what has been printed or stored before. *)
Lemma report_world (db : database) (st di : option string) (days : nat)
  (w w' : world) :
  fst (comprehensive_anomaly_report fsqrt db st di days w)
  = fst (comprehensive_anomaly_report fsqrt db st di days w') /\
  anomaly_alerts (snd (comprehensive_anomaly_report fsqrt db st di days w))
  = anomaly_alerts w.
Proof.
  unfold comprehensive_anomaly_report, get_time_series_data.
  destruct (read_sql_enrollments db (truthy st) (truthy di) (days + 60))
    as [df|e]; [|split; reflexivity].
  destruct (sort_by_date df); split; reflexivity.
Qed.

Lemma scan_rows_world (db : database) (rows : list (string * string))
  (acc : list alert) (w w' : world) :
  fst (scan_rows fsqrt db rows acc w) = fst (scan_rows fsqrt db rows acc w')
  /\ anomaly_alerts (snd (scan_rows fsqrt db rows acc w)) = anomaly_alerts w.
Proof.
  revert acc w w'. induction rows as [|[st di] rows IH]; intros acc w w'.
  - split; reflexivity.
  - cbn [scan_rows].
    destruct (report_world db (Some st) (Some di) 90 w w') as [Hf Ht].
    destruct (report_world db (Some st) (Some di) 90 w' w) as [_ Ht'].
    destruct (comprehensive_anomaly_report fsqrt db (Some st) (Some di) 90 w)
      as [[alerts|e] w1];
    destruct (comprehensive_anomaly_report fsqrt db (Some st) (Some di) 90 w')
      as [[alerts'|e'] w1']; cbn [fst snd] in *; try discriminate.
    + injection Hf as <-.
      destruct (IH (acc ++ alerts) w1 w1') as [IH1 IH2].
      split; [exact IH1 | congruence].
    + split; [exact Hf | exact Ht].
Qed.

(** X12. The service copy of the scan stores exactly what the script copy
    stores when the engine is available, and then also returns normally;
    but an exception of [get_engine()], called outside the [try] block,
    leaves the world untouched and propagates to the caller. *)
Theorem sync_scan_matches_script_but_engine :
  (forall e w,
     detect_anomalies_daily_sync fsqrt (Raise e) w = (Raise e, w)) /\
  (forall db w,
     fst (detect_anomalies_daily_sync fsqrt (Ok db) w) = Ok tt /\
     anomaly_alerts (snd (detect_anomalies_daily_sync fsqrt (Ok db) w))
     = anomaly_alerts (snd (detect_anomalies_daily fsqrt db w))).
Proof.
  split; [reflexivity|]. intros db w.
  unfold detect_anomalies_daily_sync, detect_anomalies_daily, scan_body.
  destruct (read_sql_districts db) as [rows|e]; [|split; reflexivity].
  rewrite service_scan_rows_eq.
  set (w0 := print "Starting Anomaly Detection..." w).
  assert (H0 : anomaly_alerts w0 = anomaly_alerts w) by reflexivity.
  clearbody w0.
  destruct (scan_rows_world db rows [] w w0) as [Hf Ht].
  destruct (scan_rows_world db rows [] w0 w) as [_ Ht0].
  destruct (scan_rows fsqrt db rows [] w) as [[all|e] w1];
  destruct (scan_rows fsqrt db rows [] w0) as [[all0|e0] w2];
    cbn [fst snd] in *; try discriminate.
  - injection Hf as <-.
    destruct all as [|a all];
      [cbn [fst snd]; split; [reflexivity | congruence]|].
    destruct (to_sql_anomaly_alerts db (a :: all)) as [[]|e];
      cbn [fst snd print anomaly_alerts]; split; try reflexivity;
      congruence.
  - cbn [fst snd print anomaly_alerts]. split; [reflexivity | congruence].
Qed.

Lemma sync_returns (db : database) (w : world) :
  fst (detect_anomalies_daily_sync fsqrt (Ok db) w) = Ok tt.
Proof.
  unfold detect_anomalies_daily_sync.
  destruct (read_sql_districts db) as [rows|e]; [|reflexivity].
  destruct (service_scan_rows fsqrt (Ok db) rows [] w) as [[[|a all]|e] w'];
    try reflexivity.
  destruct (to_sql_anomaly_alerts db (a :: all)) as [[]|e]; reflexivity.
Qed.

(** X13. The task reports success whenever the engine is available,
    whatever became of the scan, and leaves the world as the scan left it;
    it asks for a retry, after 60 seconds, only when [get_engine()]
    raises. *)
Theorem task_succeeds_unless_engine_fails
  (params : dict string string) (w : world) (log : list string) :
  (forall db,
     generate_anomaly_report_task fsqrt (Ok db) params w log
     = (Returned "success" "Anomaly scan completed",
        snd (detect_anomalies_daily_sync fsqrt (Ok db) w),
        log ++ [("Generating anomaly report for "
                 ++ py_str_opt (dict_get String.eqb "state"%string params))
                %string]
            ++ ["Anomaly report generated"%string])) /\
  (forall e,
     generate_anomaly_report_task fsqrt (Raise e) params w log
     = (Retried e 60, w,
        log ++ [("Generating anomaly report for "
                 ++ py_str_opt (dict_get String.eqb "state"%string params))
                %string]
            ++ [("Anomaly generation failed: " ++ exc_msg e)%string])).
Proof.
  split.
  - intros db. unfold generate_anomaly_report_task.
    pose proof (sync_returns db w) as Hok.
    destruct (detect_anomalies_daily_sync fsqrt (Ok db) w) as [[[]|e] w'];
      cbn [fst snd] in *; [|discriminate].
    rewrite <- app_assoc. reflexivity.
  - intros e. unfold generate_anomaly_report_task.
    cbn [detect_anomalies_daily_sync]. rewrite <- app_assoc. reflexivity.
Qed.

End ServiceFacts.

(** ** The provider *)

Lemma insert_by_date_perm (p : Z * Q) (l : series) :
  Permutation (p :: l) (insert_by_date p l).
Proof.
  induction l as [|q l IH]; simpl; [apply Permutation_refl|].
  destruct (fst p <? fst q)%Z; [apply Permutation_refl|].
  eapply Permutation_trans; [apply perm_swap|].
  apply perm_skip, IH.
Qed.

Lemma sort_by_date_perm (df : series) : Permutation df (sort_by_date df).
Proof.
  induction df as [|p df IH]; simpl; [constructor|].
  eapply Permutation_trans; [apply perm_skip, IH|].
  apply insert_by_date_perm.
Qed.

Lemma insert_by_date_sorted (p : Z * Q) (l : series) :
  StronglySorted date_le l -> StronglySorted date_le (insert_by_date p l).
Proof.
  induction 1 as [|q l Hl IH Hq]; simpl.
  - repeat constructor.
  - destruct (Z.ltb_spec (fst p) (fst q)) as [Hlt|Hge].
    + constructor; [constructor; assumption|].
      constructor; [unfold date_le; lia|].
      eapply Forall_impl; [|exact Hq].
      intros x Hx. unfold date_le in *. lia.
    + constructor; [exact IH|].
      apply Forall_forall. intros x Hx.
      apply (Permutation_in _ (Permutation_sym (insert_by_date_perm p l)))
        in Hx.
      destruct Hx as [<-|Hx]; [unfold date_le; lia|].
      rewrite Forall_forall in Hq. apply Hq, Hx.
Qed.

Lemma sort_by_date_sorted (df : series) :
  StronglySorted date_le (sort_by_date df).
Proof.
  induction df as [|p df IH]; simpl; [constructor|].
  apply insert_by_date_sorted, IH.
Qed.

Lemma sort_by_date_NoDup (df : series) :
  NoDup (index df) -> NoDup (index (sort_by_date df)).
Proof.
  apply Permutation_NoDup. unfold index.
  apply Permutation_map, sort_by_date_perm.
Qed.

(** X14. The provider never raises.  When the query answers, it returns
    the rows fetched, every one of them and no other, in ascending date
    order, and prints nothing; when the query fails, it returns the empty
    frame and prints the error. *)
Theorem provider_returns_rows_by_date
  (db : database) (st di : option string) (days : nat) (w : world) :
  match read_sql_enrollments db (truthy st) (truthy di) (days + 60) with
  | Ok df =>
      exists s, get_time_series_data db st di days w = (s, w) /\
                Permutation df s /\ StronglySorted date_le s
  | Raise e =>
      get_time_series_data db st di days w
      = ([], print ("Data fetch error: " ++ exc_msg e) w)
  end.
Proof.
  unfold get_time_series_data.
  destruct (read_sql_enrollments db (truthy st) (truthy di) (days + 60))
    as [df|e]; [|reflexivity].
  exists (sort_by_date df). split; [reflexivity|].
  split; [apply sort_by_date_perm | apply sort_by_date_sorted].
Qed.

(** X15. The report on a partition never raises when the rows fetched
    carry pairwise distinct dates: it returns its alerts, all of them about
    fetched rows, and prints nothing. *)
Theorem report_returns_on_distinct_dates
  (fsqrt : Q -> Q) (db : database) (st di : option string) (days : nat)
  (w : world) (df : series) :
  read_sql_enrollments db (truthy st) (truthy di) (days + 60) = Ok df ->
  NoDup (index df) ->
  exists alerts,
    comprehensive_anomaly_report fsqrt db st di days w = (Ok alerts, w) /\
    forall a, In a alerts -> In (a_date a, a_anomaly_value a) df.
Proof.
  intros Hf Hnd. unfold comprehensive_anomaly_report, get_time_series_data.
  rewrite Hf. destruct (sort_by_date df) as [|x l] eqn:Es.
  - exists []. split; [reflexivity | intros a []].
  - rewrite <- Es.
    destruct (rolling_total (sort_by_date df) 30 (sort_by_date_NoDup df Hnd))
      as (rs & Hrs).
    destruct (analyze_returns fsqrt st di (sort_by_date df) rs Hrs)
      as (alerts & Ha).
    exists alerts. rewrite Ha. split; [reflexivity|].
    intros a Hin.
    destruct (alert_candidate fsqrt st di _ rs Hrs alerts Ha a Hin)
      as (f & Hc & Hv).
    destruct (validate_inv _ _ _ _ _ _ Hv (or_introl eq_refl))
      as (_ & _ & _ & Hval & _).
    destruct Hc as (_ & Hhd & _).
    destruct (hd_error _) as [e0|] eqn:E0; [|discriminate].
    injection Hhd as Hhd. rewrite Hval, <- Hhd.
    assert (Hin0 : In e0 (findings_on (a_date a)
                            (z_score_anomalies fsqrt (sort_by_date df) 3
                             ++ iqr_outliers (sort_by_date df) ++ rs))).
    { destruct (findings_on _ _); [discriminate|].
      injection E0 as ->. left. reflexivity. }
    apply filter_In in Hin0 as (Hin0 & Hd0). apply Z.eqb_eq in Hd0.
    rewrite <- Hd0.
    apply (Permutation_in _ (Permutation_sym (sort_by_date_perm df))).
    apply (every_from_series fsqrt _ rs Hrs), Hin0.
Qed.

Lemma report_returns_on_distinct_dates_witness :
  exists alerts,
    comprehensive_anomaly_report sqrt6 flaky_db (Some "S1"%string)
      (Some "D1"%string) 90 empty_world = (Ok alerts, empty_world) /\
    forall a, In a alerts -> In (a_date a, a_anomaly_value a) dip_series.
Proof.
  apply (report_returns_on_distinct_dates sqrt6 flaky_db
           (Some "S1"%string) (Some "D1"%string) 90 empty_world dip_series).
  - reflexivity.
  - apply days_from_NoDup.
Defined.

(** ** The anomaly list view *)

(** X16. The view answers 500 with the exception text when
    [get_engine()] raises, and when a date met from position 30 on comes
    twice among the rows fetched (it asks for no state and no district, so
    it gets the rows of every pincode); a failed query is not an error to
    it: it answers 200 with an empty list; and on pairwise distinct dates
    it answers 200. *)
Theorem view_answers (fsqrt : Q -> Q) (w : world) :
  (forall e,
     anomaly_list_view fsqrt (Raise e) w = (Response500 (exc_msg e), w)) /\
  (forall db e,
     read_sql_enrollments db None None (90 + 60) = Raise e ->
     anomaly_list_view fsqrt (Ok db) w
     = (Response200 [], print ("Data fetch error: " ++ exc_msg e) w)) /\
  (forall db df i j d v v',
     read_sql_enrollments db None None (90 + 60) = Ok df ->
     (30 <= i)%nat -> i <> j ->
     nth_error (sort_by_date df) i = Some (d, v) ->
     nth_error (sort_by_date df) j = Some (d, v') ->
     anomaly_list_view fsqrt (Ok db) w
     = (Response500 "The truth value of a Series is ambiguous", w)) /\
  (forall db df,
     read_sql_enrollments db None None (90 + 60) = Ok df ->
     NoDup (index df) ->
     exists report, anomaly_list_view fsqrt (Ok db) w = (Response200 report, w)).
Proof.
  split; [reflexivity|]. split; [|split].
  - intros db e He. unfold anomaly_list_view. rewrite service_report_eq.
    unfold comprehensive_anomaly_report, get_time_series_data.
    cbn [truthy]. rewrite He. reflexivity.
  - intros db df i j d v v' Hf Hi Hij Hni Hnj.
    unfold anomaly_list_view. rewrite service_report_eq.
    unfold comprehensive_anomaly_report, get_time_series_data.
    cbn [truthy]. rewrite Hf.
    destruct (sort_by_date df) as [|x l] eqn:Es;
      [destruct i; discriminate|].
    rewrite <- Es in *. unfold analyze.
    rewrite (rolling_raises (sort_by_date df) 30 i j d v v' Hi Hij Hni Hnj).
    reflexivity.
  - intros db df Hf Hnd. unfold anomaly_list_view. rewrite service_report_eq.
    unfold comprehensive_anomaly_report, get_time_series_data.
    cbn [truthy]. rewrite Hf.
    destruct (sort_by_date df) as [|x l] eqn:Es; [eexists; reflexivity|].
    rewrite <- Es.
    destruct (rolling_total (sort_by_date df) 30 (sort_by_date_NoDup df Hnd))
      as (rs & Hrs).
    destruct (analyze_returns fsqrt None None (sort_by_date df) rs Hrs)
      as (alerts & Ha).
    exists alerts. rewrite Ha. reflexivity.
Qed.

Lemma view_answers_witness :
  anomaly_list_view sqrt6 (Ok pincode_db) empty_world
  = (Response500 "The truth value of a Series is ambiguous", empty_world).
Proof.
  apply (proj1 (proj2 (proj2 (view_answers sqrt6 empty_world)))
           pincode_db repeated_date_series 30%nat 31%nat 30%Z 10 10).
  - reflexivity.
  - lia.
  - discriminate.
  - vm_compute. reflexivity.
  - vm_compute. reflexivity.
Defined.

(** ** What the Z-score detector flags *)

Lemma combine_map_In {A B} (h : A -> B) (l : list A) (x : A) (y : B) :
  In (x, y) (combine l (map h l)) <-> In x l /\ y = h x.
Proof.
  induction l as [|a l IH]; simpl; [tauto|].
  rewrite IH. split.
  - intros [[= <- <-]|[H1 H2]]; auto.
  - intros [[<-|H1] ->]; auto.
Qed.

Lemma abs_quotient (a sd : Q) :
  0 < sd ->
  Qred (Qabs (Qred (Qred a / sd))) == Qabs a / sd.
Proof.
  intros Hsd. rewrite Qred_correct.
  assert (E : Qred (Qred a / sd) == a * / sd).
  { rewrite Qred_correct. rewrite (Qred_correct a). reflexivity. }
  rewrite E, Qabs_Qmult, Qabs_Qinv, (Qabs_pos sd) by lra. reflexivity.
Qed.

Lemma above_quotient (t x sd : Q) :
  0 < sd -> (t < x / sd <-> t * sd < x).
Proof.
  intros Hsd. split; intros H.
  - assert (Hx : x == (x / sd) * sd) by (field; lra).
    rewrite Hx. apply Qmult_lt_compat_r; assumption.
  - apply Qlt_shift_div_l; assumption.
Qed.

(** X17. On a series of at least 3 points whose standard deviation is
    positive, the Z-score detector flags exactly the points whose distance
    from the mean exceeds threshold times the standard deviation, and
    records for each the distance divided by the standard deviation. *)
Theorem z_score_flags_beyond_threshold
  (fsqrt : Q -> Q) (s : series) (t mn sd : Q) :
  (3 <= length s)%nat ->
  mean (values s) = Fin mn ->
  np_std fsqrt (values s) = Fin sd -> 0 < sd ->
  forall d v z,
    In (ZEntry d v z) (z_score_anomalies fsqrt s t) <->
    In (d, v) s /\ t * sd < Qabs (v - mn) /\
    z = abs (div (sub (Fin v) (Fin mn)) (Fin sd)) /\
    exists q, z = Fin q /\ q == Qabs (v - mn) / sd.
Proof.
  intros Hlen Hmn Hsd Hpos d v z.
  unfold z_score_anomalies.
  destruct (Nat.ltb_spec (length s) 3); [lia|].
  unfold zscore. rewrite Hmn, Hsd. unfold values at 1.
  rewrite !map_map.
  set (h := fun x : Z * Q => abs (div (sub (Fin (snd x)) (Fin mn)) (Fin sd))).
  assert (Hh : forall x, h x = Fin (Qred (Qabs (Qred (Qred (snd x - mn) / sd))))).
  { intros x. unfold h. cbn [sub div].
    replace (Qzero sd) with false; [reflexivity|].
    symmetry. apply Qzero_false. lra. }
  rewrite in_flat_map. split.
  - intros ([[d' v'] z'] & Hin & He).
    apply combine_map_In in Hin as (Hin & ->).
    destruct (gtb (h (d', v')) (Fin t)) eqn:Hgt; [|destruct He].
    destruct He as [[= <- <- <-]|[]].
    rewrite Hh in Hgt. apply gtb_Fin in Hgt. cbn [snd] in Hgt.
    rewrite abs_quotient in Hgt by exact Hpos.
    apply above_quotient in Hgt; [|exact Hpos].
    split; [exact Hin|]. split; [exact Hgt|]. split; [reflexivity|].
    rewrite Hh. eexists. split; [reflexivity|].
    cbn [snd]. apply abs_quotient, Hpos.
  - intros (Hin & Hgt & -> & _).
    exists ((d, v), h (d, v)). split.
    + apply combine_map_In. auto.
    + replace (gtb (h (d, v)) (Fin t)) with true; [left; reflexivity|].
      symmetry. rewrite Hh. apply gtb_Fin. cbn [snd].
      rewrite abs_quotient by exact Hpos.
      apply above_quotient; assumption.
Qed.

Lemma z_score_flags_beyond_threshold_witness :
  In (ZEntry 21 1000 (Fin (945000000 # 206215907)))
    (z_score_anomalies sqrt6 spike_series 3) <->
  In (21%Z, 1000) spike_series /\
  3 * (206215907 # 1000000) < Qabs (1000 - 55) /\
  Fin (945000000 # 206215907)
  = abs (div (sub (Fin 1000) (Fin 55)) (Fin (206215907 # 1000000))) /\
  exists q, Fin (945000000 # 206215907) = Fin q /\
            q == Qabs (1000 - 55) / (206215907 # 1000000).
Proof.
  apply (z_score_flags_beyond_threshold sqrt6 spike_series 3 55
           (206215907 # 1000000)).
  - simpl. lia.
  - vm_compute. reflexivity.
  - vm_compute. reflexivity.
  - reflexivity.
Defined.

(** ** What the IQR detector flags *)

Lemma insert_sorted_sorted (x : Q) (l : list Q) :
  StronglySorted Qle l -> StronglySorted Qle (insert_sorted x l).
Proof.
  induction 1 as [|y l Hl IH Hy]; simpl.
  - repeat constructor.
  - destruct (Qle_bool x y) eqn:E.
    + apply Qle_bool_iff in E.
      constructor; [constructor; assumption|].
      constructor; [exact E|].
      eapply Forall_impl; [|exact Hy]. intros z Hz. cbv beta in *. lra.
    + assert (Hyx : y <= x).
      { apply Qlt_le_weak, Qnot_le_lt. intros H.
        apply Qle_bool_iff in H. congruence. }
      constructor; [exact IH|].
      apply Forall_forall. intros z Hz.
      apply insert_sorted_In in Hz as [->|Hz]; [exact Hyx|].
      rewrite Forall_forall in Hy. apply Hy, Hz.
Qed.

Lemma sort_values_sorted (l : list Q) : StronglySorted Qle (sort_values l).
Proof.
  induction l as [|x l IH]; simpl; [constructor|].
  apply insert_sorted_sorted, IH.
Qed.

Lemma sorted_nth_le (l : list Q) (i j : nat) (d d' : Q) :
  StronglySorted Qle l -> (i <= j)%nat -> (j < length l)%nat ->
  nth i l d <= nth j l d'.
Proof.
  intros Hs. revert i j. induction Hs as [|x l Hl IH Hx]; intros i j Hij Hj.
  - simpl in Hj. lia.
  - destruct j as [|j].
    + assert (i = 0%nat) as -> by lia. simpl. lra.
    + destruct i as [|i]; simpl.
      * rewrite Forall_forall in Hx. apply Hx, nth_In. simpl in Hj. lia.
      * apply IH; simpl in Hj; lia.
Qed.

Section Quantile.
Variable vals : list Q.
Hypothesis vals_nonempty : vals <> [].

Let n1 : nat := (length vals - 1)%nat.
Let sorted : list Q := sort_values vals.

Lemma quantile_index (q : Q) :
  0 <= q -> q <= 1 ->
  (0 <= Qfloor (of_nat n1 * q))%Z /\
  (Z.to_nat (Qfloor (of_nat n1 * q)) < length sorted)%nat.
Proof.
  intros Hq0 Hq1.
  assert (Hn : (1 <= length vals)%nat)
    by (destruct vals; simpl; [congruence | lia]).
  assert (Hn0 : 0 <= of_nat n1) by (unfold of_nat, Qle; simpl; lia).
  assert (Hh0 : 0 <= of_nat n1 * q) by (apply Qmult_le_0_compat; assumption).
  assert (Hh1 : of_nat n1 * q <= of_nat n1).
  { set (n := of_nat n1) in *. clearbody n. nra. }
  assert (Hj0 : (0 <= Qfloor (of_nat n1 * q))%Z).
  { change 0%Z with (Qfloor 0). apply Qfloor_resp_le, Hh0. }
  assert (Hj1 : (Qfloor (of_nat n1 * q) <= Z.of_nat n1)%Z).
  { rewrite <- (Qfloor_Z (Z.of_nat n1)). apply Qfloor_resp_le. exact Hh1. }
  split; [exact Hj0|].
  unfold sorted. rewrite sort_values_length. unfold n1 in *. lia.
Qed.

(** A quantile lies between the two order statistics it interpolates. *)
Lemma quantile_between (q : Q) :
  0 <= q -> q <= 1 ->
  let j := Z.to_nat (Qfloor (of_nat n1 * q)) in
  nth j sorted 0 <= quantile vals q /\
  quantile vals q <= nth (S j) sorted (nth j sorted 0).
Proof.
  intros Hq0 Hq1 j. destruct (quantile_index q Hq0 Hq1) as [Hj0 Hj].
  unfold quantile. fold n1. fold sorted. rewrite Qred_correct.
  set (h := of_nat n1 * q) in *. fold j.
  set (a := nth j sorted 0). set (b := nth (S j) sorted a).
  assert (Hab : a <= b).
  { unfold b. destruct (Nat.lt_ge_cases (S j) (length sorted)) as [Hin|Hout].
    - unfold a. apply sorted_nth_le;
        [apply sort_values_sorted | lia | exact Hin].
    - rewrite nth_overflow by exact Hout. lra. }
  assert (Hg0 : 0 <= h - (Qfloor h # 1)).
  { pose proof (Qfloor_le h) as H. unfold inject_Z in H. lra. }
  assert (Hg1 : h - (Qfloor h # 1) <= 1).
  { pose proof (Qlt_floor h) as H. rewrite inject_Z_plus in H.
    unfold inject_Z in H. lra. }
  set (g := h - (Qfloor h # 1)) in *. clearbody g. split; nra.
Qed.

Lemma quantile_monotone (q1 q2 : Q) :
  0 <= q1 -> q1 <= q2 -> q2 <= 1 -> quantile vals q1 <= quantile vals q2.
Proof.
  intros H0 H12 H1.
  assert (Hq1 : q1 <= 1) by lra. assert (Hq2 : 0 <= q2) by lra.
  destruct (quantile_index q1 H0 Hq1) as [Hj1 Hin1].
  destruct (quantile_index q2 Hq2 H1) as [Hj2 Hin2].
  assert (Hn0 : 0 <= of_nat n1) by (unfold of_nat, Qle; simpl; lia).
  assert (Hh : of_nat n1 * q1 <= of_nat n1 * q2).
  { set (n := of_nat n1) in *. clearbody n. nra. }
  assert (Hfl : (Qfloor (of_nat n1 * q1) <= Qfloor (of_nat n1 * q2))%Z)
    by (apply Qfloor_resp_le, Hh).
  destruct (Z.eq_dec (Qfloor (of_nat n1 * q1)) (Qfloor (of_nat n1 * q2)))
    as [E|Hne].
  - unfold quantile. fold n1. fold sorted. rewrite !Qred_correct.
    rewrite <- E.
    set (j := Z.to_nat (Qfloor (of_nat n1 * q1))) in *.
    set (a := nth j sorted 0). set (b := nth (S j) sorted a).
    assert (Hab : a <= b).
    { unfold b. destruct (Nat.lt_ge_cases (S j) (length sorted)) as [Hin|Hout].
      - unfold a. apply sorted_nth_le;
          [apply sort_values_sorted | lia | exact Hin].
      - rewrite nth_overflow by exact Hout. lra. }
    set (h1 := of_nat n1 * q1) in *. set (h2 := of_nat n1 * q2) in *.
    set (f := (Qfloor h1 # 1)). clearbody f h1 h2 a b. nra.
  - destruct (quantile_between q1 H0 Hq1) as [_ Hup].
    destruct (quantile_between q2 Hq2 H1) as [Hlow _].
    cbv zeta in Hup, Hlow.
    set (j1 := Z.to_nat (Qfloor (of_nat n1 * q1))) in *.
    set (j2 := Z.to_nat (Qfloor (of_nat n1 * q2))) in *.
    assert (Hj : (S j1 <= j2)%nat) by (unfold j1, j2; lia).
    assert (Hmid : nth (S j1) sorted (nth j1 sorted 0) <= nth j2 sorted 0).
    { apply sorted_nth_le; [apply sort_values_sorted | exact Hj | exact Hin2]. }
    lra.
Qed.

End Quantile.

(** X18. On a series of at least 5 points the first quartile is at most the
    third, so the lower fence is at most the upper one and the quartiles lie
    between the fences.  Every finding of the IQR detector is a point of
    the series strictly outside the fences, hence strictly outside the
    interquartile range, and records the two fences; every point strictly
    outside the fences has a finding. *)
Theorem iqr_flags_outside_fences (s : series) :
  (5 <= length s)%nat ->
  let Q1 := quantile (values s) (1 # 4) in
  let Q3 := quantile (values s) (3 # 4) in
  let lower := Q1 - (3 # 2) * (Q3 - Q1) in
  let upper := Q3 + (3 # 2) * (Q3 - Q1) in
  Q1 <= Q3 /\
  (forall d v lo hi, In (IqrEntry d v lo hi) (iqr_outliers s) ->
     In (d, v) s /\ lo == lower /\ hi == upper /\
     lo <= Q1 /\ Q3 <= hi /\ (v < lo \/ hi < v) /\ (v < Q1 \/ Q3 < v)) /\
  (forall d v, In (d, v) s -> v < lower \/ upper < v ->
     exists lo hi, In (IqrEntry d v lo hi) (iqr_outliers s)).
Proof.
  intros Hlen Q1 Q3 lower upper.
  assert (Hne : values s <> []).
  { destruct s; simpl in *; [lia | congruence]. }
  assert (Hq : Q1 <= Q3).
  { apply (quantile_monotone (values s) Hne); lra. }
  split; [exact Hq|].
  unfold iqr_outliers. destruct (Nat.ltb_spec (length s) 5) as [|_]; [lia|].
  fold Q1 Q3. split.
  - intros d v lo hi Hin.
    apply in_flat_map in Hin as ([d' v'] & Hs & He).
    destruct (Qltb v' _ || Qltb _ v') eqn:Hout; [|destruct He].
    destruct He as [[= <- <- <- <-]|[]].
    assert (Hlo : Qred (Q1 - (3 # 2) * (Q3 - Q1)) == lower)
      by apply Qred_correct.
    assert (Hhi : Qred (Q3 + (3 # 2) * (Q3 - Q1)) == upper)
      by apply Qred_correct.
    split; [exact Hs|]. split; [exact Hlo|]. split; [exact Hhi|].
    assert (Hside : d' = d' /\
              (v' < Qred (Q1 - (3 # 2) * (Q3 - Q1)) \/
               Qred (Q3 + (3 # 2) * (Q3 - Q1)) < v')).
    { split; [reflexivity|].
      apply orb_true_iff in Hout as [Ho|Ho]; apply Qltb_true in Ho; auto. }
    destruct Hside as [_ Hside].
    unfold lower, upper in *.
    split; [rewrite Hlo; lra|]. split; [rewrite Hhi; lra|].
    split; [exact Hside|].
    destruct Hside as [H|H]; [left; rewrite Hlo in H | right; rewrite Hhi in H];
      lra.
  - intros d v Hs Hout.
    exists (Qred (Q1 - (3 # 2) * (Q3 - Q1))), (Qred (Q3 + (3 # 2) * (Q3 - Q1))).
    apply in_flat_map. exists (d, v). split; [exact Hs|].
    replace (Qltb v _ || Qltb _ v) with true; [left; reflexivity|].
    symmetry. apply orb_true_iff.
    destruct Hout as [H|H]; [left | right]; apply Qltb_true;
      rewrite Qred_correct; exact H.
Qed.

Lemma iqr_flags_outside_fences_witness :
  quantile (values spike_series) (1 # 4)
  <= quantile (values spike_series) (3 # 4).
Proof.
  apply (iqr_flags_outside_fences spike_series).
  simpl. lia.
Defined.

(** ** The store after aggregation *)

(** X19. After the three result lists have been added, the store holds one
    candidate per date that has a finding and none for any other date.  The
    candidate of a date carries that date, the value of the date's first
    finding, the method names of the date's findings in the order z-score,
    IQR, rolling deviation, and under each method name the last finding of
    that method for the date. *)
Theorem aggregation_groups_by_date (zs iqs rs : list entry) (d : Z) :
  NoDup (map fst (collect_findings zs iqs rs)) /\
  candidate_of (zs ++ iqs ++ rs) d
    (dict_get Z.eqb d (collect_findings zs iqs rs)) /\
  findings_on d (zs ++ iqs ++ rs)
  = findings_on d zs ++ findings_on d iqs ++ findings_on d rs.
Proof.
  rewrite collect_findings_eq. split; [|split].
  - apply add_findings_keys. constructor.
  - apply add_findings_get.
  - rewrite !findings_on_app. reflexivity.
Qed.

(* ================================================================== *)
(** * The validation threshold on a repeated date *)

(** C1. The code at the failing input.  In [twin_series] the date 8 occurs
    twice, with value 100 both times, after eight days at 10.  The Z-score
    and rolling detectors flag nothing; the IQR detector flags both points
    of date 8.  The method list of date 8 is then [iqr; iqr], its length 2
    passes the test [len(f['methods']) >= 2], and an alert is produced for
    a date on which a single method fired. *)
Theorem twin_series_validated_by_one_method :
  z_score_anomalies sqrt6 twin_series 3 = [] /\
  iqr_outliers twin_series = [IqrEntry 8 100 10 10; IqrEntry 8 100 10 10] /\
  rolling_average_deviation twin_series 30 = Ok [] /\
  methods_fired (z_score_anomalies sqrt6 twin_series 3)
    (iqr_outliers twin_series) [] 8 = [iqr] /\
  analyze sqrt6 None None twin_series = Ok [twin_alert].
Proof.
  split; [vm_compute; reflexivity|].
  split; [vm_compute; reflexivity|].
  split; [vm_compute; reflexivity|].
  split; vm_compute; reflexivity.
Qed.

(* ================================================================== *)
(** * A failed fetch in the daily scan *)




